(** * koishi-plugin-w-tesseract: the language-data service of [src/index.ts]

    A shallow embedding of [TesseractService] (asset store, installer and
    worker factory) together with the JavaScript and Node.js primitives it
    calls, followed by the properties of the service.

    Conventions.
    - A JavaScript string is modelled by a Rocq [string], a sequence of
      units in which an ASCII character is one unit, as it is one code unit
      in JavaScript; a character outside ASCII is the units of its UTF-8
      sequence, and a lone surrogate, which a JavaScript string may hold, is
      the three units [ED A0..BF 80..BF].  Every literal the service searches
      for or cuts off (the asset suffix, the separators [,] and [/], the
      placeholders of the download template) is ASCII; the messages of the
      service are kept as written in the source and are never measured or
      cut.
    - Paths follow the POSIX flavour of [node:path].  A resolved path is the
      list of its segments, innermost first: [/data/tesseract] is
      [["tesseract"; "data"]] and the filesystem root is [[]].
    - The filesystem is keyed by the names as they are stored.  The name
      stored for a string of the program and the string reported for a
      stored name are given by the host ([fs_name] and [listed_name]); for
      Node on a POSIX system they are the conversions to and from UTF-8
      ([Node.utf8_of_string] and [Node.string_of_utf8]).
    - The OCR engine and the HTTP client are outside the service: what they
      answer is given by the host.  A request is answered with a stream or
      fails; a stream closes, fails or stalls; the engine builds the worker
      it is asked for, rejects, or gives no answer.
    - Asynchronous code is written in state-passing style over a [World];
      the awaits of concurrently running installs are interleaved by an
      explicit schedule. *)

From Stdlib Require Import Strings.Ascii ZArith Strings.Byte.
From stdpp Require Import base tactics option list gmap strings.

Open Scope Z_scope.
Open Scope nat_scope.

(** ** JavaScript strings and arrays *)

Module Js.

(** [String.prototype.startsWith] at position 0. *)
Fixpoint startsWith (s pre : string) {struct pre} : bool :=
  match pre with
  | EmptyString => true
  | String c pre' =>
      match s with
      | EmptyString => false
      | String d s' => Ascii.eqb c d && startsWith s' pre'
      end
  end.

(** [String.prototype.endsWith]: the search string must fit and the last
    [length suf] code units must be equal to it. *)
Definition endsWith (s suf : string) : bool :=
  let len := String.length s in
  let searchLength := String.length suf in
  (searchLength <=? len) &&
  String.eqb (String.substring (len - searchLength) searchLength s) suf.

(** The clamping of a relative index done by [slice]: a negative index
    counts from the end, and everything is clamped to [0 .. len]. *)
Definition clamp_index (len : nat) (i : Z) : nat :=
  if (i <? 0)%Z then Z.to_nat (Z.max (Z.of_nat len + i) 0)
  else Nat.min (Z.to_nat i) len.

(** [String.prototype.slice(start, end)]. *)
Definition slice (s : string) (start end_ : Z) : string :=
  let len := String.length s in
  let from := clamp_index len start in
  let to := clamp_index len end_ in
  String.substring from (to - from) s.

(** [Array.prototype.slice(start, end)]. *)
Definition array_slice {A} (l : list A) (start end_ : Z) : list A :=
  let len := length l in
  let from := clamp_index len start in
  let to := clamp_index len end_ in
  take (to - from) (drop from l).

(** [String.prototype.split] with a one-character separator. *)
Fixpoint split (sep : ascii) (s : string) : list string :=
  match s with
  | EmptyString => [EmptyString]
  | String c s' =>
      if Ascii.eqb c sep then EmptyString :: split sep s'
      else match split sep s' with
           | w :: ws => String c w :: ws
           | [] => [String c EmptyString]
           end
  end.

(** [Array.prototype.join]. *)
Fixpoint join (sep : string) (l : list string) : string :=
  match l with
  | [] => EmptyString
  | [x] => x
  | x :: l' => x +:+ sep +:+ join sep l'
  end.

(** [Array.prototype.includes] on strings. *)
Definition includes (l : list string) (x : string) : bool :=
  bool_decide (x ∈ l).

(** Truthiness of a string and of an array length. *)
Definition truthy_string (s : string) : bool :=
  negb (String.eqb s EmptyString).
Definition truthy_nat (n : nat) : bool := negb (n =? 0).

(** Drops the first [n] code units. *)
Fixpoint drop_string (n : nat) (s : string) : string :=
  match n, s with
  | S k, String _ s' => drop_string k s'
  | _, _ => s
  end.

(** [GetSubstitution] of ECMA-262 for a pattern without capture groups:
    in the replacement text [$$] stands for a dollar sign, [$&] for the
    matched text, [$`] for the text before the match and [$'] for the text
    after it; any other dollar sign is kept as it is. *)
Fixpoint GetSubstitution (matched before after repl : string) : string :=
  match repl with
  | EmptyString => EmptyString
  | String c r =>
      if Ascii.eqb c "$" then
        match r with
        | String d r' =>
            if Ascii.eqb d "$" then
              String "$" (GetSubstitution matched before after r')
            else if Ascii.eqb d "&" then
              matched +:+ GetSubstitution matched before after r'
            else if Ascii.eqb d "`" then
              before +:+ GetSubstitution matched before after r'
            else if Ascii.eqb d "'" then
              after +:+ GetSubstitution matched before after r'
            else String c (GetSubstitution matched before after r)
        | EmptyString => String c EmptyString
        end
      else String c (GetSubstitution matched before after r)
  end.

(** [s.replace(/pat/g, repl)] for a literal, non-empty pattern: the
    matches are found from left to right without overlap, and each one is
    replaced by the expansion of [repl].  [before] is what of the original
    string has been passed, [skip] counts the code units of the current
    match still to be passed. *)
Fixpoint replace_go (pat repl before s : string) (skip : nat) : string :=
  match s with
  | EmptyString => EmptyString
  | String c s' =>
      match skip with
      | S k => replace_go pat repl (before +:+ String c EmptyString) s' k
      | O =>
          if startsWith s pat then
            GetSubstitution pat before (drop_string (String.length pat) s) repl
            +:+ replace_go pat repl (before +:+ String c EmptyString) s'
                  (String.length pat - 1)
          else String c (replace_go pat repl (before +:+ String c EmptyString) s' 0)
      end
  end.

Definition replace_g (s pat repl : string) : string :=
  replace_go pat repl EmptyString s 0.

(** Whether a code unit occurs in a string. *)
Fixpoint contains (c : ascii) (s : string) : bool :=
  match s with
  | EmptyString => false
  | String d s' => Ascii.eqb d c || contains c s'
  end.

(** Whether the second code unit of a replacement pattern follows. *)
Definition pattern_tail (r : string) : bool :=
  match r with
  | String d _ =>
      Ascii.eqb d "$" || Ascii.eqb d "&" || Ascii.eqb d "`" || Ascii.eqb d "'"
  | EmptyString => false
  end.

(** Whether one of the replacement patterns [$$], [$&], [$`], [$'] occurs
    in a string. *)
Fixpoint has_pattern (s : string) : bool :=
  match s with
  | EmptyString => false
  | String c r => (Ascii.eqb c "$" && pattern_tail r) || has_pattern r
  end.

End Js.

(** ** Node.js: paths, the filesystem and streams *)

Module Node.

(** A resolved (absolute, normalized) path: its segments, innermost
    first. *)
Definition path := list string.

(** The normalization done by [path.resolve]: empty segments and [.] are
    dropped, [..] goes to the parent and stays at the root. *)
Fixpoint walk (cur : path) (segs : list string) : path :=
  match segs with
  | [] => cur
  | seg :: rest =>
      if String.eqb seg EmptyString || String.eqb seg "." then walk cur rest
      else if String.eqb seg ".." then walk (tail cur) rest
      else walk (seg :: cur) rest
  end.

(** One argument of [path.resolve]: an empty argument is ignored, an
    absolute one starts again from the root, a relative one continues from
    the path resolved so far. *)
Definition resolve_arg (cur : path) (arg : string) : path :=
  if String.eqb arg EmptyString then cur
  else if Js.startsWith arg "/" then walk [] (Js.split "/" arg)
  else walk cur (Js.split "/" arg).

(** [path.resolve(...args)] in a process whose working directory is
    [cwd].  Node goes through the arguments from the right until it has an
    absolute path; going from the left and starting again at every
    absolute argument gives the same path. *)
Definition resolve (cwd : path) (args : list string) : path :=
  foldl resolve_arg cwd args.

(** The string of a resolved path. *)
Definition to_string (p : path) : string :=
  "/" +:+ Js.join "/" (reverse p).

(** The segments a resolved path is made of: no slash, and none of the
    empty name, [.] and [..]. *)
Definition segment_ok (seg : string) : bool :=
  negb (Js.contains "/" seg) && negb (String.eqb seg EmptyString) &&
  negb (String.eqb seg ".") && negb (String.eqb seg "..").

Definition resolved (p : path) : Prop :=
  Forall (fun seg => segment_ok seg = true) p.

Inductive Node :=
  | Dir
  | File (content : list byte).

(** The filesystem: the node at every path that exists, the path being
    given by the names of its segments as they are stored.  The root
    directory [[]] always exists and has no entry of its own. *)
Abbreviation Fs := (gmap path Node).

Definition is_dir (fs : Fs) (p : path) : bool :=
  match p with
  | [] => true
  | _ => match fs !! p with Some Dir => true | _ => false end
  end.

(** The faults of the environment (permissions and the like): the
    directories that cannot be created, those that cannot be listed and
    the files that cannot be opened for writing. *)
Record Faults := mkFaults {
  mkdir_denied : gset path;
  readdir_denied : gset path;
  write_denied : gset path
}.

(** [mkdir -p] on the tree: every missing directory on the way is
    created; a file on the way makes it fail. *)
Fixpoint mkdir_tree (p : path) (fs : Fs) : option Fs :=
  match p with
  | [] => Some fs
  | _ :: parent =>
      match mkdir_tree parent fs with
      | None => None
      | Some fs' =>
          match fs' !! p with
          | None => Some (<[p := Dir]> fs')
          | Some Dir => Some fs'
          | Some (File _) => None
          end
      end
  end.

(** [fs.mkdir(p, { recursive: true })]: [None] is a rejection, which
    leaves the filesystem as it was. *)
Definition mkdir_recursive (fl : Faults) (p : path) (fs : Fs) : option Fs :=
  if bool_decide (p ∈ mkdir_denied fl) then None else mkdir_tree p fs.

Definition child_of (p : path) (e : path * Node) : option string :=
  match e.1 with
  | name :: parent => if bool_decide (parent = p) then Some name else None
  | [] => None
  end.

(** The names of the entries of directory [p], as they are stored. *)
Definition entries (p : path) (fs : Fs) : list string :=
  omap (child_of p) (map_to_list fs).

(** What [fs.readdir(p)] reads: the stored names of the entries of [p];
    [None] is a rejection.  The strings that Node makes of these names are
    put on them by [fs_readdir]. *)
Definition readdir (fl : Faults) (p : path) (fs : Fs) : option (list string) :=
  if bool_decide (p ∈ readdir_denied fl) then None
  else if is_dir fs p then Some (entries p fs)
  else None.

(** Whether [fs.createWriteStream(p)] can open [p]: the parent must be a
    directory and [p] itself must not be one. *)
Definition can_open (fl : Faults) (p : path) (fs : Fs) : bool :=
  match p with
  | [] => false
  | _ :: parent =>
      negb (bool_decide (p ∈ write_denied fl)) &&
      is_dir fs parent && negb (is_dir fs p)
  end.

(** How a stream ends: it closes after its chunks, it fails, or it
    delivers nothing more and never ends. *)
Inductive Ending := Closes | Fails | Stalls.

(** What a web [ReadableStream] delivers: its chunks, and how it ends.
    For a stream that does not close while it is piped to a file,
    [left_behind] is what the pipe has written: nothing at all when a
    failure comes before the file is opened, else the bytes in the file. *)
Record Stream := mkStream {
  chunks : list (list byte);
  ending : Ending;
  left_behind : option (list byte)
}.

Definition closes (s : Stream) : bool :=
  match ending s with Closes => true | _ => false end.

(** [Buffer.concat]. *)
Definition Buffer_concat (bufs : list (list byte)) : list byte := concat bufs.

(** *** File names as UTF-8

    Node gives a path to the operating system as UTF-8 and reads the names
    of a directory as UTF-8. *)

Definition byte_in (lo hi : N) (c : ascii) : bool :=
  ((lo <=? N_of_ascii c) && (N_of_ascii c <=? hi))%N.

(** U+FFFD, the replacement character. *)
Definition replacement : string :=
  String "239" (String "191" (String "189" EmptyString)).

(** Whether a string begins with a lone surrogate. *)
Definition lone_surrogate (s : string) : bool :=
  match s with
  | String a (String b (String c _)) =>
      byte_in 237 237 a && byte_in 160 191 b && byte_in 128 191 c
  | _ => false
  end.

(** The conversion of a string to UTF-8: every lone surrogate becomes
    U+FFFD.  [skip] counts the units of the current surrogate still to be
    passed. *)
Fixpoint utf8_go (s : string) (skip : nat) : string :=
  match s with
  | EmptyString => EmptyString
  | String c s' =>
      match skip with
      | S k => utf8_go s' k
      | O =>
          if lone_surrogate s then replacement +:+ utf8_go s' 2
          else String c (utf8_go s' 0)
      end
  end.

Definition utf8_of_string (s : string) : string := utf8_go s 0.

(** Whether a string is made of ASCII units only. *)
Fixpoint ascii_only (s : string) : bool :=
  match s with
  | EmptyString => true
  | String c s' => byte_in 0 127 c && ascii_only s'
  end.

(** The state of the UTF-8 decoder: the bytes of the current sequence
    still needed, the bounds of the next byte and the bytes seen. *)
Record Decoder := mkDecoder {
  needed : nat;
  lower : N;
  upper : N;
  seen : string
}.

Definition idle : Decoder := mkDecoder 0 128 191 EmptyString.

(** A byte read when no sequence is open: what is put out, and the state
    after it. *)
Definition decode_first (c : ascii) : string * Decoder :=
  let one := String c EmptyString in
  if byte_in 0 127 c then (one, idle)
  else if byte_in 194 223 c then (EmptyString, mkDecoder 1 128 191 one)
  else if byte_in 224 239 c then
    (EmptyString,
     mkDecoder 2 (if byte_in 224 224 c then 160 else 128)
       (if byte_in 237 237 c then 159 else 191) one)
  else if byte_in 240 244 c then
    (EmptyString,
     mkDecoder 3 (if byte_in 240 240 c then 144 else 128)
       (if byte_in 244 244 c then 143 else 191) one)
  else (replacement, idle).

(** The UTF-8 decoder of the Encoding standard: a byte that cannot go on
    the current sequence ends it with U+FFFD and is read again as a first
    byte; a sequence cut by the end of the input gives U+FFFD. *)
Fixpoint decode_go (s : string) (st : Decoder) : string :=
  match s with
  | EmptyString =>
      match needed st with O => EmptyString | S _ => replacement end
  | String c s' =>
      match needed st with
      | O => (decode_first c).1 +:+ decode_go s' (decode_first c).2
      | S n =>
          if byte_in (lower st) (upper st) c then
            match n with
            | O => seen st +:+ String c (decode_go s' idle)
            | S _ =>
                decode_go s'
                  (mkDecoder n 128 191 (seen st +:+ String c EmptyString))
            end
          else
            replacement +:+ (decode_first c).1
              +:+ decode_go s' (decode_first c).2
      end
  end.

(** The string Node makes of a stored name. *)
Definition string_of_utf8 (s : string) : string := decode_go s idle.

End Node.

(** ** The collaborators of the service and the state of the world *)

Import Node.

(** What JavaScript code can throw here. *)
Inductive JsError :=
  | SessionError (msg : string)          (* koishi's [SessionError] *)
  | IOError (syscall : string) (p : path) (* a rejection of [node:fs] *)
  | HttpError (url : string)              (* [http.get] fails or times out *)
  | StreamError                           (* a stream fails while it is read *)
  | EngineError.                          (* the OCR engine fails *)

(** How the evaluation of an awaited call completes: with a value, with
    an exception, or not at all when a promise it awaits is never
    settled. *)
Inductive Completion (A : Type) :=
  | Return (a : A)
  | Throw (e : JsError)
  | Never.
Arguments Return {A} a.
Arguments Throw {A} e.
Arguments Never {A}.

(** The values of the option bag given to the OCR engine. *)
Inductive JsVal :=
  | VUndefined
  | VBool (b : bool)
  | VNumber (n : Z)
  | VString (s : string).

Abbreviation JsObject := (gmap string JsVal).

(** A worker of the OCR engine, as [Tesseract.createWorker] was asked to
    build it. *)
Record Worker := mkWorker {
  w_id : nat;
  w_langs : list string;
  w_oem : nat;
  w_options : JsObject
}.

Inductive Level := Info | Error.

Record LogEntry := mkLog {
  log_level : Level;
  log_message : string;
  log_arg : option JsError
}.

Record Request := mkRequest {
  req_url : string;
  req_responseType : string;
  req_timeout : option N
}.

(** An element of a parsed message: its type and its [src] attribute. *)
Record Element := mkElement {
  el_type : string;
  el_src : string
}.

(** [TesseractService.Config]. *)
Record Config := mkConfig {
  langPath : string;
  source : string;
  downloadTimeout : N
}.

(** The defaults of the configuration schema. *)
Definition default_config : Config :=
  {| langPath := "data/tesseract";
     source := "https://unpkg.com/@tesseract.js-data/{lang}/4.0.0_best_int/{file}";
     downloadTimeout := 30000%N |}.

(** Everything the service can change or observe. *)
Record World := mkWorld {
  fs : Fs;
  faults : Faults;
  requests : list Request;   (* the HTTP requests issued, oldest first *)
  logs : list LogEntry;
  asked : list Worker;       (* the workers the engine was asked for *)
  workers : list Worker;     (* the workers constructed by the engine *)
  terminated : list nat;     (* the workers terminated *)
  sent : list string         (* the messages sent to the chat session *)
}.

Definition set_fs (f : Fs) (w : World) : World :=
  mkWorld f (faults w) (requests w) (logs w) (asked w) (workers w)
    (terminated w) (sent w).
Definition add_request (r : Request) (w : World) : World :=
  mkWorld (fs w) (faults w) (requests w ++ [r]) (logs w) (asked w) (workers w)
    (terminated w) (sent w).
Definition add_log (l : LogEntry) (w : World) : World :=
  mkWorld (fs w) (faults w) (requests w) (logs w ++ [l]) (asked w) (workers w)
    (terminated w) (sent w).
Definition add_asked (k : Worker) (w : World) : World :=
  mkWorld (fs w) (faults w) (requests w) (logs w) (asked w ++ [k]) (workers w)
    (terminated w) (sent w).
Definition add_worker (k : Worker) (w : World) : World :=
  mkWorld (fs w) (faults w) (requests w) (logs w) (asked w) (workers w ++ [k])
    (terminated w) (sent w).
Definition add_terminated (i : nat) (w : World) : World :=
  mkWorld (fs w) (faults w) (requests w) (logs w) (asked w) (workers w)
    (terminated w ++ [i]) (sent w).
Definition add_sent (m : string) (w : World) : World :=
  mkWorld (fs w) (faults w) (requests w) (logs w) (asked w) (workers w)
    (terminated w) (sent w ++ [m]).

(** How the engine answers when it is asked for a worker: its promise is
    fulfilled with the worker, is rejected, or is never settled. *)
Inductive EngineAnswer := Builds | Rejects | Silent.

(** What the service gets from its host: the base directory of the
    application, the working directory of the process, the names of the
    file system (the name stored for a string, and the string reported for a
    stored name), the HTTP client (the answer to the [n]-th request: nothing
    when it fails or times out, else the response stream), the OCR engine
    (its answer to a request for a worker, which may depend on everything in
    the world, and its recognition) and the rendering of an error in a
    template literal. *)
Record Context := mkContext {
  baseDir : string;
  cwd : path;
  fs_name : string -> string;
  listed_name : string -> string;
  http_answer : nat -> Request -> option Stream;
  engine_create : World -> Worker -> EngineAnswer;
  engine_recognize : Worker -> list byte -> option string;
  error_text : JsError -> string
}.

(** ** Asynchronous code in state-passing style *)

Definition Async (A : Type) : Type := World -> Completion A * World.

Definition ret {A} (a : A) : Async A := fun w => (Return a, w).
Definition throw {A} (e : JsError) : Async A := fun w => (Throw e, w).

(** Awaiting a promise that is never settled. *)
Definition never {A} : Async A := fun w => (Never, w).

Definition bind {A B} (m : Async A) (k : A -> Async B) : Async B :=
  fun w =>
    match m w with
    | (Return a, w') => k a w'
    | (Throw e, w') => (Throw e, w')
    | (Never, w') => (Never, w')
    end.

(** [try { m } catch (err) { h err }]. *)
Definition try_catch {A} (m : Async A) (h : JsError -> Async A) : Async A :=
  fun w =>
    match m w with
    | (Return a, w') => (Return a, w')
    | (Throw e, w') => h e w'
    | (Never, w') => (Never, w')
    end.

Declare Scope async_scope.
Delimit Scope async_scope with async.
Notation "'let*' x ':=' m 'in' k" := (bind m (fun x => k))
  (at level 10, x name, m at level 100, k at level 200) : async_scope.
Notation "m ';;' k" := (bind m (fun _ => k))
  (at level 100, k at level 200, right associativity) : async_scope.

(** ** Concurrent installs

    An [installLang] that has been called and not yet awaited to its end is
    a task: it is suspended at one of its three [await]s, to be resumed or
    (on a stream that stalls) for ever, or it is settled.  The answer of the
    HTTP client is fixed when the request is issued. *)

Inductive Stage :=
  | AwaitGet (answer : option Stream)   (* at [await this.ctx.http.get] *)
  | AwaitMkdir (resp : Stream)          (* at [await fs.mkdir] *)
  | AwaitPipe (resp : Stream)           (* at [await resp.pipeTo] *)
  | Hanging                             (* at an [await] that never returns *)
  | Settled (c : Completion unit).

Record Task := mkTask {
  task_lang : string;
  task_stage : Stage
}.

Definition is_settled (t : Task) : bool :=
  match task_stage t with Settled _ => true | _ => false end.

(** A task that has nothing more to do: it is settled, or it is suspended
    for ever. *)
Definition is_finished (t : Task) : bool :=
  match task_stage t with Settled _ | Hanging => true | _ => false end.

(** The number of resumptions a task needs at most to be finished. *)
Definition remaining (t : Task) : nat :=
  match task_stage t with
  | AwaitGet _ => 3
  | AwaitMkdir _ => 2
  | AwaitPipe _ => 1
  | Hanging | Settled _ => 0
  end.

(** The tasks given to [Promise.all], and the first rejection among them. *)
Record Pool := mkPool {
  pool_tasks : list Task;
  pool_rejection : option JsError
}.

(** The rejection recorded in a pool comes from its tasks: without one
    every settled task has returned, and the one recorded has been thrown by
    a task. *)
Definition consistent (pl : Pool) : Prop :=
  match pool_rejection pl with
  | None =>
      Forall (fun t => ∀ c, task_stage t = Settled c → c = Return tt)
        (pool_tasks pl)
  | Some e => Exists (fun t => task_stage t = Settled (Throw e)) (pool_tasks pl)
  end.

(** The state of a promise. *)
Inductive Promise (A : Type) :=
  | Pending
  | Fulfilled (a : A)
  | Rejected (e : JsError).
Arguments Pending {A}.
Arguments Fulfilled {A} a.
Arguments Rejected {A} e.

(** ** The service *)

Section Service.

Variable ctx : Context.
Variable config : Config.

Open Scope async_scope.

(** *** The primitives the service calls *)

(** [this.logger.info] and [this.logger.error]. *)
Definition logger (lvl : Level) (msg : string) (arg : option JsError)
  : Async unit :=
  fun w => (Return tt, add_log (mkLog lvl msg arg) w).

(** Issuing an HTTP request: it is recorded, and the host's client
    decides on its answer. *)
Definition http_request (req : Request) (w : World)
  : option Stream * World :=
  (http_answer ctx (length (requests w)) req, add_request req w).

(** [await ctx.http.get(url, { responseType, timeout })]. *)
Definition http_get (url responseType : string) (timeout : option N)
  : Async Stream :=
  fun w =>
    match http_request (mkRequest url responseType timeout) w with
    | (Some resp, w') => (Return resp, w')
    | (None, w') => (Throw (HttpError url), w')
    end.

(** The path of the program as the file system stores it. *)
Definition on_disk (p : path) : path := fs_name ctx <$> p.

(** [await fs.mkdir(p, { recursive: true })]. *)
Definition fs_mkdir (p : path) : Async unit :=
  fun w =>
    match mkdir_recursive (faults w) (on_disk p) (fs w) with
    | Some fs' => (Return tt, set_fs fs' w)
    | None => (Throw (IOError "mkdir" p), w)
    end.

(** [await fs.readdir(p)]: the stored names of the entries, each as the
    string the host reports for it. *)
Definition fs_readdir (p : path) : Async (list string) :=
  fun w =>
    match readdir (faults w) (on_disk p) (fs w) with
    | Some names => (Return (listed_name ctx <$> names), w)
    | None => (Throw (IOError "scandir" p), w)
    end.

(** [await resp.pipeTo(Stream.Writable.toWeb(fsSync.createWriteStream(p)))]:
    the file is opened with the default flag [w], which creates or
    truncates it, the chunks delivered are written to it, and the promise
    is fulfilled when the stream closes.  When the file cannot be opened
    the filesystem stays as it was.  When the stream fails the promise is
    rejected, and the file is as the failing pipe has left it: untouched
    when the failure came before the file was opened, else holding what had
    been written by then.  When the stream stalls the file is opened and
    holds what has been written, and the promise is never settled.  The
    writes of one pipe are taken as one step. *)
Definition pipeTo (resp : Stream) (p : path) : Async unit :=
  fun w =>
    let opened := can_open (faults w) (on_disk p) (fs w) in
    let written body := set_fs (<[on_disk p := File body]> (fs w)) w in
    match ending resp with
    | Closes =>
        if opened then (Return tt, written (Buffer_concat (chunks resp)))
        else (Throw (IOError "open" p), w)
    | Fails =>
        match left_behind resp with
        | None => (Throw StreamError, w)
        | Some body =>
            if opened then (Throw StreamError, written body)
            else (Throw (IOError "open" p), w)
        end
    | Stalls =>
        if opened then (Never, written (default [] (left_behind resp)))
        else (Throw (IOError "open" p), w)
    end.

(** [streamToBuffer]: the chunks of the stream, concatenated, once the
    stream has closed. *)
Definition streamToBuffer (stream : Stream) : Async (list byte) :=
  match ending stream with
  | Closes => ret (Buffer_concat (chunks stream))
  | Fails => throw StreamError
  | Stalls => never
  end.

(** [Tesseract.createWorker(langs, oem, options)], awaited by the caller
    of the service's [createWorker], which returns its promise.  The engine
    is outside the service: it loads its core and the language data, and its
    promise is fulfilled with the worker asked for, is rejected, or is never
    settled, as the host has it. *)
Definition Tesseract_createWorker (langs : list string) (oem : nat)
    (options : JsObject) : Async Worker :=
  fun w =>
    let k := mkWorker (length (workers w)) langs oem options in
    match engine_create ctx w k with
    | Builds => (Return k, add_worker k (add_asked k w))
    | Rejects => (Throw EngineError, add_asked k w)
    | Silent => (Never, add_asked k w)
    end.

(** [await worker.recognize(buffer)], giving [res.data.text]. *)
Definition worker_recognize (k : Worker) (buffer : list byte)
  : Async string :=
  match engine_recognize ctx k buffer with
  | Some text => ret text
  | None => throw EngineError
  end.

(** [worker.terminate()]. *)
Definition worker_terminate (k : Worker) : Async unit :=
  fun w => (Return tt, add_terminated (w_id k) w).

(** [session.send(message)]. *)
Definition session_send (message : string) : Async unit :=
  fun w => (Return tt, add_sent message w).

(** *** [TesseractService] *)

(** [get langPath()]: [path.resolve(this.ctx.baseDir, this.config.langPath)]. *)
Definition service_langPath : path :=
  resolve (cwd ctx) [baseDir ctx; langPath config].

Definition gzipFileName (lang : string) : string :=
  lang +:+ ".traineddata.gz".

(** [path.resolve(this.langPath, gzipFileName)]: the first argument is the
    string of a resolved path, so that the resolution goes on from that path
    (lemma [gzipFilePath_from_string]). *)
Definition gzipFilePath (lang : string) : path :=
  resolve service_langPath [gzipFileName lang].

Definition download_url (lang : string) : string :=
  Js.replace_g (Js.replace_g (source config) "{lang}" lang)
    "{file}" (gzipFileName lang).

Definition download_message (lang : string) : string :=
  "正在下载训练数据 <" +:+ download_url lang +:+ "> 到 <"
    +:+ to_string (gzipFilePath lang) +:+ ">……".

Definition installLang (lang : string) : Async unit :=
  logger Info (download_message lang) None ;;
  let* resp :=
    http_get (download_url lang) "stream" (Some (downloadTimeout config)) in
  fs_mkdir service_langPath ;;
  pipeTo resp (gzipFilePath lang) ;;
  logger Info "安装成功" None.

Definition getInstalledLangs : Async (list string) :=
  try_catch
    (fs_mkdir service_langPath ;;
     let* dir := fs_readdir service_langPath in
     ret ((fun s => Js.slice s 0 (-15)) <$>
          filter (fun s => Js.endsWith s ".traineddata.gz") dir))
    (fun err =>
       logger Error "刷新语言列表时出错: %o" (Some err) ;;
       ret []).

(** The codes of [langs] that are not installed:
    [langs.filter(lang => ! installedLangs.includes(lang))]. *)
Definition missing_of (installedLangs langs : list string) : list string :=
  filter (fun lang => negb (Js.includes installedLangs lang)) langs.

(** [createWorker(langs, options = {})]; [None] is an argument left out
    or [undefined]. *)
Definition createWorker (langs : list string) (options : option JsObject)
  : Async Worker :=
  let options := default ∅ options in
  let* installedLangs := getInstalledLangs in
  let missingLangs := missing_of installedLangs langs in
  if Js.truthy_nat (length missingLangs) then
    throw (SessionError
             ("缺失 Tesseract.js 语言训练数据：" +:+ Js.join ", " missingLangs))
  else
    Tesseract_createWorker langs 1
      (options ∪ {[ "langPath" := VString (to_string service_langPath) ]}).

(** *** [installNecessaryLangs] *)

(** The part of [installLang] that runs when it is called, up to its
    first [await]: the message is logged and the request is issued. *)
Definition install_begin (lang : string) (w : World) : Task * World :=
  let w1 := add_log (mkLog Info (download_message lang) None) w in
  let '(answer, w2) :=
    http_request
      (mkRequest (download_url lang) "stream" (Some (downloadTimeout config)))
      w1 in
  (mkTask lang (AwaitGet answer), w2).

(** A suspended [installLang] goes on to its next [await], or to its
    end. *)
Definition install_resume (t : Task) (w : World) : Task * World :=
  let lang := task_lang t in
  match task_stage t with
  | AwaitGet None =>
      (mkTask lang (Settled (Throw (HttpError (download_url lang)))), w)
  | AwaitGet (Some resp) => (mkTask lang (AwaitMkdir resp), w)
  | AwaitMkdir resp =>
      match fs_mkdir service_langPath w with
      | (Return _, w') => (mkTask lang (AwaitPipe resp), w')
      | (Throw e, w') => (mkTask lang (Settled (Throw e)), w')
      | (Never, w') => (mkTask lang Hanging, w')
      end
  | AwaitPipe resp =>
      match (pipeTo resp (gzipFilePath lang) ;; logger Info "安装成功" None) w with
      | (Never, w') => (mkTask lang Hanging, w')
      | (c, w') => (mkTask lang (Settled c), w')
      end
  | Hanging | Settled _ => (t, w)
  end.

(** [langs.map(lang => this.installLang(lang))]: every install is called
    in turn and runs up to its first [await]. *)
Fixpoint begin_all (langs : list string) (w : World) : list Task * World :=
  match langs with
  | [] => ([], w)
  | lang :: rest =>
      let '(t, w1) := install_begin lang w in
      let '(ts, w2) := begin_all rest w1 in
      (t :: ts, w2)
  end.

(** The event loop resumes task [i]. *)
Definition resume_in_pool (i : nat) (pl : Pool) (w : World) : Pool * World :=
  match pool_tasks pl !! i with
  | None => (pl, w)
  | Some t =>
      let '(t', w') := install_resume t w in
      let rejection :=
        match pool_rejection pl, is_settled t, task_stage t' with
        | None, false, Settled (Throw e) => Some e
        | r, _, _ => r
        end in
      (mkPool (<[i := t']> (pool_tasks pl)) rejection, w')
  end.

(** The event loop resumes the tasks in the order of the schedule. *)
Fixpoint run_schedule (sched : list nat) (pl : Pool) (w : World)
  : Pool * World :=
  match sched with
  | [] => (pl, w)
  | i :: rest =>
      let '(pl', w') := resume_in_pool i pl w in
      run_schedule rest pl' w'
  end.

(** [Promise.all]: rejected with the first rejection, fulfilled when
    every task is, and pending until then. *)
Definition promise_all (pl : Pool) : Promise unit :=
  match pool_rejection pl with
  | Some e => Rejected e
  | None =>
      if forallb is_settled (pool_tasks pl) then Fulfilled tt else Pending
  end.

(** [installNecessaryLangs(langs)] under the schedule [sched] of its
    installs: the tasks it started with their stages, the state of the
    promise of [Promise.all], and the world. *)
Definition installNecessaryLangs (langs : list string) (sched : list nat)
    (w : World) : Pool * Promise unit * World :=
  match getInstalledLangs w with
  | (Never, w0) => (mkPool [] None, Pending, w0)
  | (Throw e, w0) => (mkPool [] (Some e), Rejected e, w0)
  | (Return installedLangs, w0) =>
      let '(tasks, w1) := begin_all (missing_of installedLangs langs) w0 in
      let '(pl, w2) := run_schedule sched (mkPool tasks None) w1 in
      (pl, promise_all pl, w2)
  end.

(** *** The commands *)

(** [tesseract.lang.list]. *)
Definition command_lang_list : Async string :=
  let* langs := getInstalledLangs in
  let joined := Js.join ", " langs in
  ret ("已安装的语言：" +:+ (if Js.truthy_string joined then joined else "无")).

(** [tesseract.lang.install <lang>]. *)
Definition command_lang_install (lang : string) : Async string :=
  try_catch (installLang lang)
    (fun err =>
       logger Error ("安装 " +:+ lang +:+ " 的训练数据时出错: %o") (Some err) ;;
       throw (SessionError
                ("安装 " +:+ lang +:+ " 的训练数据时出错：" +:+ error_text ctx err))) ;;
  let* langs := getInstalledLangs in
  ret ("安装 " +:+ lang +:+ " 的训练数据成功，当前已安装的语言："
         +:+ Js.join ", " langs).

(** The languages of a recognition: those of the option [-l], or else the
    first installed one. *)
Definition recognize_langs (opt_langs : option string)
  : Async (list string) :=
  match opt_langs with
  | Some l =>
      if Js.truthy_string l then ret (Js.split "," l)
      else let* installed := getInstalledLangs in
           ret (Js.array_slice installed 0 1)
  | None =>
      let* installed := getInstalledLangs in
      ret (Js.array_slice installed 0 1)
  end.

(** [tesseract.recognize <content>], on the elements [h.parse(content)]
    of the message. *)
Definition command_recognize (elements : list Element)
    (opt_langs : option string) (opt_json : bool) : Async string :=
  match List.find (fun el => String.eqb (el_type el) "img") elements with
  | None => ret "请在命令中附带图片"
  | Some imgEl =>
      let src := el_src imgEl in
      let* stream := http_get src "stream" None in
      let* buffer := streamToBuffer stream in
      session_send "图片下载完成，开始识别……" ;;
      let* langs := recognize_langs opt_langs in
      let* worker := createWorker langs None in
      let* text := worker_recognize worker buffer in
      worker_terminate worker ;;
      (if opt_json then logger Info "识别结果 JSON: %o" None else ret tt) ;;
      ret ("识别结果：" +:+ text)
  end.

End Service.


(** ** The operations of the system and the words of the specification *)

(** Substitution as the specification words it: every occurrence of [pat],
    from left to right, is replaced by the text [by_] as it stands. *)
Fixpoint substitute_go (pat by_ s : string) (skip : nat) : string :=
  match s with
  | EmptyString => EmptyString
  | String c s' =>
      match skip with
      | S k => substitute_go pat by_ s' k
      | O =>
          if Js.startsWith s pat
          then by_ +:+ substitute_go pat by_ s' (String.length pat - 1)
          else String c (substitute_go pat by_ s' 0)
      end
  end.

Definition substitute_all (s pat by_ : string) : string :=
  substitute_go pat by_ s 0.

(** The URL of the specification: the template with [{lang}] replaced by
    the code and [{file}] by the name of the asset file. *)
Definition spec_url (config : Config) (lang : string) : string :=
  substitute_all (substitute_all (source config) "{lang}" lang)
    "{file}" (lang +:+ ".traineddata.gz").

(** The path written [<dir>/name]: [name] followed from the directory. *)
Definition under (dir : path) (name : string) : path :=
  walk dir (Js.split "/" name).

(** The operations of the system: the methods of the service and the three
    commands. *)
Inductive Op :=
  | OpInstallLang (lang : string)
  | OpInstallNecessaryLangs (langs : list string) (sched : list nat)
  | OpGetInstalledLangs
  | OpCreateWorker (langs : list string) (options : option JsObject)
  | OpCommandLangList
  | OpCommandLangInstall (lang : string)
  | OpCommandRecognize (elements : list Element) (opt_langs : option string)
      (opt_json : bool).

Section Operations.

Variable ctx : Context.
Variable config : Config.

(** The world after an operation. *)
Definition exec (op : Op) (w : World) : World :=
  match op with
  | OpInstallLang lang => (installLang ctx config lang w).2
  | OpInstallNecessaryLangs langs sched =>
      (installNecessaryLangs ctx config langs sched w).2
  | OpGetInstalledLangs => (getInstalledLangs ctx config w).2
  | OpCreateWorker langs options =>
      (createWorker ctx config langs options w).2
  | OpCommandLangList => (command_lang_list ctx config w).2
  | OpCommandLangInstall lang => (command_lang_install ctx config lang w).2
  | OpCommandRecognize elements opt_langs opt_json =>
      (command_recognize ctx config elements opt_langs opt_json w).2
  end.

(** The request of [installLang]. *)
Definition download_request (lang : string) : Request :=
  mkRequest (download_url config lang) "stream" (Some (downloadTimeout config)).

(** The world once [installLang] has logged its message and issued its
    request. *)
Definition requested (lang : string) (w : World) : World :=
  add_request (download_request lang)
    (add_log (mkLog Info (download_message ctx config lang) None) w).

(** The codes an operation calls [installLang] on. *)
Definition installs (op : Op) (w : World) : list string :=
  match op with
  | OpInstallLang lang | OpCommandLangInstall lang => [lang]
  | OpInstallNecessaryLangs langs _ =>
      match getInstalledLangs ctx config w with
      | (Return installedLangs, _) => missing_of installedLangs langs
      | _ => []
      end
  | _ => []
  end.

(** The files an operation pipes a download to, as the file system stores
    them. *)
Definition destinations (op : Op) (w : World) : list path :=
  (fun lang => on_disk ctx (gzipFilePath ctx config lang)) <$> installs op w.

End Operations.

(** How an entry of the filesystem may go from one state to another: it
    stays as it is (when it exists), or it stays a file. *)
Definition kept (before after : option Node) : Prop :=
  ∀ n, before = Some n → after = Some n.

Definition still_file (before after : option Node) : Prop :=
  ∀ c, before = Some (File c) → ∃ c', after = Some (File c').

(** An asynchronous computation takes the entry at [p] from a state to
    one related by [R]. *)
Definition preserves (R : relation (option Node)) {A} (p : path)
    (m : Async A) : Prop :=
  ∀ w, R (fs w !! p) (fs (m w).2 !! p).

(** The same for a step of a task or a pool. *)
Definition step_preserves (R : relation (option Node)) {S} (p : path)
    (f : World -> S * World) : Prop :=
  ∀ w, R (fs w !! p) (fs (f w).2 !! p).

(** ** Sample hosts and worlds *)

Definition no_faults : Faults := mkFaults ∅ ∅ ∅.

Definition empty_world : World := mkWorld ∅ no_faults [] [] [] [] [] [].

Definition body_A : list byte := [x41%byte].
Definition body_B : list byte := [x42%byte].

(** A Node host in [/koishi] on a POSIX system, by its HTTP client and its
    engine. *)
Definition node_host (client : nat -> Request -> option Stream)
    (create : World -> Worker -> EngineAnswer)
    (recognize : Worker -> list byte -> option string) : Context :=
  mkContext "/koishi" ["home"] utf8_of_string string_of_utf8 client create
    recognize (fun _ => "error").

(** A host whose HTTP client answers every request with a one-chunk
    stream, the first one with [body_A] and the later ones with [body_B],
    and whose engine builds every worker and recognizes. *)
Definition sample_ctx : Context :=
  node_host
    (fun n _ => Some (mkStream [if n =? 0 then body_A else body_B] Closes None))
    (fun _ _ => Builds) (fun _ _ => Some "text").

(** The same host with a client whose requests all fail. *)
Definition offline_ctx : Context :=
  node_host (fun _ _ => None) (fun _ _ => Builds) (fun _ _ => Some "text").

(** The same host with a client whose streams deliver [body_A] and then
    fail, with [body_A] written. *)
Definition flaky_ctx : Context :=
  node_host (fun _ _ => Some (mkStream [body_A] Fails (Some body_A)))
    (fun _ _ => Builds) (fun _ _ => Some "text").

(** The same host with a client whose streams deliver [body_A] and then
    stall. *)
Definition stalling_ctx : Context :=
  node_host (fun _ _ => Some (mkStream [body_A] Stalls (Some body_A)))
    (fun _ _ => Builds) (fun _ _ => Some "text").

(** The same host with an engine that fails to recognize. *)
Definition blind_ctx : Context :=
  node_host (fun _ _ => Some (mkStream [body_A] Closes None))
    (fun _ _ => Builds) (fun _ _ => None).

(** The same host with an engine that cannot load: its promise of a worker
    is rejected. *)
Definition broken_ctx : Context :=
  node_host (fun _ _ => Some (mkStream [body_A] Closes None))
    (fun _ _ => Rejects) (fun _ _ => Some "text").

(** [/koishi/data/tesseract], the asset root of the sample host under the
    default configuration. *)
Definition sample_root : path := ["tesseract"; "data"; "koishi"].

Definition sample_dirs : Fs :=
  <[ sample_root := Dir ]>
    (<[ ["data"; "koishi"] := Dir ]> (<[ ["koishi"] := Dir ]> ∅)).

(** A world in which [eng] is installed with content [body_B]. *)
Definition eng_world : World :=
  mkWorld (<[ "eng.traineddata.gz" :: sample_root := File body_B ]> sample_dirs)
    no_faults [] [] [] [] [] [].

(** A world whose asset root can be written to and not listed. *)
Definition unlistable_world : World :=
  mkWorld ∅ (mkFaults ∅ {[ sample_root ]} ∅) [] [] [] [] [] [].

(** The same with [eng] installed. *)
Definition unlistable_eng_world : World :=
  mkWorld (fs eng_world) (mkFaults ∅ {[ sample_root ]} ∅) [] [] [] [] [] [].

(** The code [\ud800], a lone surrogate, and the name U+FFFD it is stored
    under. *)
Definition lone_code : string :=
  String "237" (String "160" (String "128" EmptyString)).
(** * Properties *)

(** ** Strings *)

Section StringFacts.

Lemma string_app_cons c s t : String c s +:+ t = String c (s +:+ t).
Proof. reflexivity. Qed.

Lemma string_app_empty_r s : s +:+ EmptyString = s.
Proof. induction s as [|c s IH]; [done|]. by rewrite string_app_cons, IH. Qed.

Lemma string_app_assoc s t u : (s +:+ t) +:+ u = s +:+ t +:+ u.
Proof. induction s as [|c s IH]; [done|]. by rewrite !string_app_cons, IH. Qed.

Lemma string_length_app s t :
  String.length (s +:+ t) = String.length s + String.length t.
Proof. induction s as [|c s IH]; [done|]. rewrite string_app_cons. simpl. lia. Qed.

Lemma substring_prefix p q :
  String.substring 0 (String.length p) (p +:+ q) = p.
Proof.
  induction p as [|c p IH]; simpl.
  - by destruct q.
  - by rewrite ?string_app_cons, IH.
Qed.

Lemma substring_suffix p q :
  String.substring (String.length p) (String.length q) (p +:+ q) = q.
Proof.
  induction p as [|c p IH]; simpl.
  - change (EmptyString +:+ q) with q. induction q as [|d q IHq]; [done|].
    simpl. by rewrite IHq.
  - by rewrite ?string_app_cons.
Qed.

Lemma substring_split n s :
  n ≤ String.length s →
  s = String.substring 0 n s +:+ String.substring n (String.length s - n) s.
Proof.
  revert n. induction s as [|c s IH]; intros n Hn; simpl in Hn.
  - by replace n with 0 by lia.
  - destruct n as [|n]; simpl.
    + change (EmptyString +:+ ?x) with x. f_equal.
      clear. induction s as [|d s IHs]; [done|]. simpl. by rewrite <- IHs.
    + rewrite ?string_app_cons. f_equal. apply IH. lia.
Qed.

Lemma endsWith_app p suf : Js.endsWith (p +:+ suf) suf = true.
Proof.
  unfold Js.endsWith. rewrite string_length_app.
  apply andb_true_intro; split.
  - apply Nat.leb_le. lia.
  - replace (String.length p + String.length suf - String.length suf)
      with (String.length p) by lia.
    rewrite substring_suffix. apply String.eqb_refl.
Qed.

Lemma endsWith_inv s suf :
  Js.endsWith s suf = true → ∃ p, s = p +:+ suf.
Proof.
  unfold Js.endsWith. intros [Hle Heq]%andb_prop.
  apply Nat.leb_le in Hle. apply String.eqb_eq in Heq.
  exists (String.substring 0 (String.length s - String.length suf) s).
  pose proof (substring_split (String.length s - String.length suf) s) as Hs.
  replace (String.length s - (String.length s - String.length suf))
    with (String.length suf) in Hs by lia.
  rewrite Heq in Hs. apply Hs. lia.
Qed.

Lemma clamp_index_0 len : Js.clamp_index len 0 = 0.
Proof. unfold Js.clamp_index. simpl. lia. Qed.

Lemma clamp_index_neg len k :
  k ≠ 0 → Js.clamp_index len (- Z.of_nat k) = len - k.
Proof.
  intros Hk. unfold Js.clamp_index.
  destruct (Z.ltb_spec (- Z.of_nat k) 0); lia.
Qed.

(** Cutting a suffix off with [slice(0, -n)]. *)
Lemma slice_strip p suf :
  String.length suf ≠ 0 →
  Js.slice (p +:+ suf) 0 (- Z.of_nat (String.length suf)) = p.
Proof.
  intros Hn. unfold Js.slice.
  rewrite clamp_index_0, clamp_index_neg, string_length_app by done.
  replace (String.length p + String.length suf - String.length suf - 0)
    with (String.length p) by lia.
  apply substring_prefix.
Qed.

Lemma string_app_inj_r s1 s2 suf : s1 +:+ suf = s2 +:+ suf → s1 = s2.
Proof.
  intros H. destruct suf as [|c suf].
  - by rewrite !string_app_empty_r in H.
  - rewrite <- (slice_strip s1 (String c suf)), <- (slice_strip s2 (String c suf))
      by done.
    by rewrite H.
Qed.

End StringFacts.

(** ** Paths and the filesystem *)

Section NodeFacts.

Lemma contains_app c s t :
  Js.contains c (s +:+ t) = Js.contains c s || Js.contains c t.
Proof.
  induction s as [|d s IH]; [done|].
  rewrite ?string_app_cons. simpl. rewrite IH. by rewrite orb_assoc.
Qed.

Lemma split_without sep s :
  Js.contains sep s = false → Js.split sep s = [s].
Proof.
  induction s as [|c s IH]; [done|]. simpl.
  intros [Hc Hs]%orb_false_elim. rewrite Hc, (IH Hs). done.
Qed.

Lemma startsWith_without c s :
  Js.contains c s = false → Js.startsWith s (String c EmptyString) = false.
Proof.
  destruct s as [|d s]; [done|]. simpl.
  intros [Hc _]%orb_false_elim. rewrite Ascii.eqb_sym, Hc. done.
Qed.

Lemma eqb_length_ne s t :
  String.length s ≠ String.length t → String.eqb s t = false.
Proof. intros H. apply String.eqb_neq. by intros ->. Qed.

(** A name without a slash that is longer than [..] resolves to
    the entry of that name. *)
Lemma resolve_plain_name (dir : path) name :
  Js.contains "/" name = false →
  2 < String.length name →
  resolve dir [name] = name :: dir.
Proof.
  intros Hns Hlen. unfold resolve. simpl. unfold resolve_arg.
  rewrite (eqb_length_ne name EmptyString) by (simpl; lia).
  rewrite (startsWith_without _ _ Hns), (split_without _ _ Hns). simpl.
  rewrite (eqb_length_ne name EmptyString) by (simpl; lia).
  rewrite (eqb_length_ne name ".") by (simpl; lia).
  rewrite (eqb_length_ne name "..") by (simpl; lia).
  done.
Qed.

Lemma suffix_cons_cases (q : path) seg parent :
  q `suffix_of` seg :: parent → q = seg :: parent ∨ q `suffix_of` parent.
Proof.
  intros [[|x k] Hk]; simplify_eq/=; [by left|right]. by exists k.
Qed.

Lemma is_dir_insert_Dir (fs : Fs) (p q : path) :
  is_dir fs q = true → is_dir (<[p := Dir]> fs) q = true.
Proof.
  destruct q as [|s q]; [done|]. simpl.
  destruct (decide (p = s :: q)) as [->|Hne].
  - by rewrite lookup_insert_eq.
  - by rewrite lookup_insert_ne.
Qed.

(** [mkdir -p] only adds directories, and only on the way to its
    argument. *)
Lemma mkdir_tree_lookup (p : path) (fs fs' : Fs) (q : path) :
  mkdir_tree p fs = Some fs' →
  fs' !! q = fs !! q ∨
  (fs !! q = None ∧ fs' !! q = Some Dir ∧ q `suffix_of` p).
Proof.
  revert fs'. induction p as [|seg parent IH]; intros fs' H; simpl in H.
  - left. congruence.
  - destruct (mkdir_tree parent fs) as [fs1|] eqn:E1; [|done].
    specialize (IH fs1 eq_refl).
    assert (fs1 !! q = fs !! q ∨
            fs !! q = None ∧ fs1 !! q = Some Dir ∧ q `suffix_of` seg :: parent)
      as IH'.
    { destruct IH as [?|(?&?&?)]; [by left|right].
      repeat split; try done. by apply suffix_cons_r. }
    destruct (fs1 !! (seg :: parent : path)) as [[|c]|] eqn:E2; simplify_eq.
    { exact IH'. }
    destruct (decide (q = seg :: parent)) as [->|Hne].
    + right. rewrite lookup_insert_eq. repeat split; try done.
      destruct IH as [Heq|(?&?&?)]; congruence.
    + rewrite lookup_insert_ne by done. done.
Qed.

Lemma mkdir_tree_preserves (p : path) (fs fs' : Fs) (q : path) n :
  mkdir_tree p fs = Some fs' → fs !! q = Some n → fs' !! q = Some n.
Proof.
  intros H Hq. destruct (mkdir_tree_lookup p fs fs' q H) as [->|(?&?&?)];
    congruence.
Qed.

Lemma mkdir_tree_is_dir (p : path) (fs fs' : Fs) (q : path) :
  mkdir_tree p fs = Some fs' → q `suffix_of` p → is_dir fs' q = true.
Proof.
  revert fs' q. induction p as [|seg parent IH]; intros fs' q H Hq;
    simpl in H.
  - apply suffix_nil_inv in Hq as ->. done.
  - destruct (mkdir_tree parent fs) as [fs1|] eqn:E1; [|done].
    apply suffix_cons_cases in Hq as [->|Hq].
    + destruct (fs1 !! (seg :: parent : path)) as [[|c]|] eqn:E2; simplify_eq.
      * simpl. by rewrite E2.
      * simpl. by rewrite lookup_insert_eq.
    + specialize (IH fs1 q eq_refl Hq).
      destruct (fs1 !! (seg :: parent : path)) as [[|c]|] eqn:E2; simplify_eq.
      * done.
      * by apply is_dir_insert_Dir.
Qed.

(** On directories that exist already [mkdir -p] changes nothing. *)
Lemma mkdir_tree_existing (p : path) (fs : Fs) :
  (∀ q, q `suffix_of` p → is_dir fs q = true) → mkdir_tree p fs = Some fs.
Proof.
  induction p as [|seg parent IH]; intros H; [done|]. simpl.
  rewrite IH by (intros q Hq; apply H; by apply suffix_cons_r).
  specialize (H (seg :: parent) (reflexivity _)). simpl in H.
  by destruct (fs !! (seg :: parent : path)) as [[|c]|].
Qed.

Lemma child_of_Some (p : path) e name :
  child_of p e = Some name ↔ e.1 = name :: p.
Proof.
  unfold child_of. destruct e as [[|s q] n]; simpl; [naive_solver|].
  case_bool_decide; naive_solver.
Qed.

(** The entries of a directory are the names under it. *)
Lemma elem_of_entries (p : path) (fs : Fs) name :
  name ∈ entries p fs ↔ is_Some (fs !! (name :: p)).
Proof.
  unfold entries. rewrite list_elem_of_omap. split.
  - intros ([q n] & Hin & Hc). apply child_of_Some in Hc. simpl in Hc.
    subst q. apply elem_of_map_to_list in Hin. eauto.
  - intros [n Hn]. exists (name :: p, n). split.
    + by apply elem_of_map_to_list.
    + by apply child_of_Some.
Qed.

Lemma closes_true resp : closes resp = true ↔ ending resp = Closes.
Proof. unfold closes. by destruct (ending resp). Qed.

End NodeFacts.

(** ** Resolved paths and their strings

    [path.resolve] returns a string, and the service resolves the name of an
    asset file against the string of the asset root.  Resolving against the
    string of a resolved path is resolving from that path. *)

Section ResolvedPaths.

Lemma split_cons_sep sep s :
  Js.split sep (String sep s) = EmptyString :: Js.split sep s.
Proof. simpl. by rewrite Ascii.eqb_refl. Qed.

Lemma split_app_sep sep x rest :
  Js.contains sep x = false →
  Js.split sep (x +:+ String sep rest) = x :: Js.split sep rest.
Proof.
  induction x as [|c x IH]; intros Hx.
  - apply split_cons_sep.
  - simpl in Hx. apply orb_false_elim in Hx as [Hc Hx].
    change (String c x +:+ String sep rest)
      with (String c (x +:+ String sep rest)).
    simpl. rewrite Hc, (IH Hx). done.
Qed.

Lemma split_join sep (l : list string) :
  l ≠ [] → Forall (fun s => Js.contains sep s = false) l →
  Js.split sep (Js.join (String sep EmptyString) l) = l.
Proof.
  induction l as [|x l IH]; [done|]. intros _ Hl.
  apply Forall_cons in Hl as [Hx Hl]. destruct l as [|y l].
  - simpl. by apply split_without.
  - change (Js.join (String sep EmptyString) (x :: y :: l))
      with (x +:+ String sep EmptyString
              +:+ Js.join (String sep EmptyString) (y :: l)).
    change (String sep EmptyString +:+ ?r) with (String sep r).
    rewrite split_app_sep by done. f_equal. by apply IH.
Qed.

Lemma Forall_split_contains sep s :
  Forall (fun seg => Js.contains sep seg = false) (Js.split sep s).
Proof.
  induction s as [|c s IH]; simpl.
  - by repeat constructor.
  - destruct (Ascii.eqb c sep) eqn:Ec; [by constructor|].
    destruct (Js.split sep s) as [|w ws].
    + constructor; [|constructor]. simpl. by rewrite Ec.
    + apply Forall_cons in IH as [Hw Hws]. constructor; [|done].
      simpl. by rewrite Ec, Hw.
Qed.

Lemma segment_ok_spec seg :
  segment_ok seg = true ↔
  Js.contains "/" seg = false ∧
  String.eqb seg EmptyString || String.eqb seg "." = false ∧
  String.eqb seg ".." = false.
Proof.
  unfold segment_ok.
  rewrite !andb_true_iff, !negb_true_iff, orb_false_iff. tauto.
Qed.

(** Following resolved segments appends them. *)
Lemma walk_resolved (cur segs : path) :
  resolved segs → walk cur segs = reverse segs ++ cur.
Proof.
  revert cur. induction segs as [|seg segs IH]; intros cur Hs; [done|].
  apply Forall_cons in Hs as [Hseg Hs].
  apply segment_ok_spec in Hseg as (_ & H1 & H2).
  simpl. rewrite H1, H2, (IH _ Hs), reverse_cons, <- (assoc_L (++)). done.
Qed.

(** Following any segments from a resolved path gives a resolved path. *)
Lemma walk_is_resolved (cur : path) (segs : list string) :
  resolved cur →
  Forall (fun seg => Js.contains "/" seg = false) segs →
  resolved (walk cur segs).
Proof.
  revert cur. induction segs as [|seg segs IH]; intros cur Hc Hs; [done|].
  apply Forall_cons in Hs as [Hseg Hs]. simpl.
  destruct (String.eqb seg EmptyString || String.eqb seg ".") eqn:E1;
    [by apply IH|].
  destruct (String.eqb seg "..") eqn:E2.
  - apply IH; [|done]. destruct cur; [done|]. by apply Forall_cons in Hc as [_ ?].
  - apply IH; [|done]. constructor; [|done]. by apply segment_ok_spec.
Qed.

Lemma resolve_is_resolved (cwd : path) (args : list string) :
  resolved cwd → resolved (resolve cwd args).
Proof.
  unfold resolve. revert cwd.
  induction args as [|arg args IH]; intros cwd Hc; [done|].
  simpl. apply IH. unfold resolve_arg.
  destruct (String.eqb arg EmptyString); [done|].
  destruct (Js.startsWith arg "/");
    apply walk_is_resolved; try done; try apply Forall_split_contains.
  constructor.
Qed.

(** Resolving the string of a resolved path gives the path back, whatever
    the path resolved so far is. *)
Lemma resolve_arg_to_string (cur p : path) :
  resolved p → resolve_arg cur (to_string p) = p.
Proof.
  intros Hp. unfold resolve_arg, to_string.
  change ("/" +:+ ?r) with (String "/"%char r).
  cbn [String.eqb Js.startsWith Ascii.eqb Bool.eqb andb].
  rewrite split_cons_sep. cbn [walk String.eqb orb].
  destruct (decide (p = [])) as [->|Hne]; [done|].
  rewrite split_join.
  - rewrite walk_resolved, reverse_involutive, app_nil_r; [done|].
    by apply Forall_reverse.
  - intros Hr. apply Hne. by rewrite <- (reverse_involutive p), Hr.
  - apply Forall_reverse. eapply Forall_impl; [exact Hp|].
    intros seg Hseg. by apply segment_ok_spec in Hseg as (? & _).
Qed.

(** [path.resolve(dir, name)] on the string of the resolved path [dir]. *)
Lemma resolve_from_string (cwd dir : path) name :
  resolved dir → resolve cwd [to_string dir; name] = resolve dir [name].
Proof.
  intros Hd. unfold resolve. simpl. by rewrite resolve_arg_to_string.
Qed.

End ResolvedPaths.

(** ** The asset store *)

Section AssetStore.

Variable ctx : Context.
Variable config : Config.

Local Abbreviation root := (service_langPath ctx config).
Local Abbreviation droot := (on_disk ctx (service_langPath ctx config)).
Local Abbreviation listing_error := "刷新语言列表时出错: %o".

(** The codes computed from the names of a directory. *)
Local Abbreviation codes_of dir :=
  ((fun s => Js.slice s 0 (-15)) <$>
   filter (fun s => Js.endsWith s ".traineddata.gz") dir).

(** What [getInstalledLangs] does, by the outcome of its two calls. *)
Lemma getInstalledLangs_cases w :
  getInstalledLangs ctx config w =
  match mkdir_recursive (faults w) droot (fs w) with
  | None =>
      (Return [],
       add_log (mkLog Error listing_error (Some (IOError "mkdir" root))) w)
  | Some fs' =>
      match readdir (faults w) droot fs' with
      | Some names =>
          (Return (codes_of (listed_name ctx <$> names)), set_fs fs' w)
      | None =>
          (Return [],
           add_log (mkLog Error listing_error (Some (IOError "scandir" root)))
             (set_fs fs' w))
      end
  end.
Proof.
  unfold getInstalledLangs, try_catch, bind, fs_mkdir, fs_readdir, logger, ret.
  destruct (mkdir_recursive (faults w) droot (fs w)) as [fs'|]; [|done].
  simpl. by destruct (readdir (faults w) droot fs').
Qed.

Lemma getInstalledLangs_returns w :
  ∃ langs w', getInstalledLangs ctx config w = (Return langs, w').
Proof.
  rewrite getInstalledLangs_cases.
  destruct (mkdir_recursive _ _ _) as [fs'|]; [|by eauto].
  destruct (readdir _ _ _); eauto.
Qed.

(** The listing changes no entry that exists and changes nothing but the
    filesystem and the log. *)
Lemma getInstalledLangs_frame w langs w' :
  getInstalledLangs ctx config w = (Return langs, w') →
  faults w' = faults w ∧ requests w' = requests w ∧ asked w' = asked w ∧
  workers w' = workers w ∧ terminated w' = terminated w ∧
  sent w' = sent w ∧
  ∀ q, fs w' !! q = fs w !! q ∨
       (fs w !! q = None ∧ fs w' !! q = Some Dir ∧ q `suffix_of` droot).
Proof.
  rewrite getInstalledLangs_cases. unfold mkdir_recursive.
  case_bool_decide.
  { intros; simplify_eq; simpl; eauto 10. }
  destruct (mkdir_tree droot (fs w)) as [fs'|] eqn:E.
  - pose proof (fun q => mkdir_tree_lookup droot (fs w) fs' q E) as Hq.
    destruct (readdir _ _ _); intros; simplify_eq; simpl; eauto 10.
  - intros; simplify_eq; simpl; eauto 10.
Qed.

(** The result of the listing depends on the filesystem and its faults
    only. *)
Lemma getInstalledLangs_same_fs w1 w2 :
  fs w1 = fs w2 → faults w1 = faults w2 →
  (getInstalledLangs ctx config w1).1 = (getInstalledLangs ctx config w2).1 ∧
  fs (getInstalledLangs ctx config w1).2 = fs (getInstalledLangs ctx config w2).2.
Proof.
  intros Hfs Hfl. rewrite !getInstalledLangs_cases, Hfs, Hfl.
  destruct (mkdir_recursive _ _ _) as [fs'|]; [|by simpl].
  destruct (readdir _ _ _); by simpl.
Qed.

Lemma strip_gzipFileName lang :
  Js.slice (gzipFileName lang) 0 (-15) = lang.
Proof. apply (slice_strip lang ".traineddata.gz"). done. Qed.

Lemma endsWith_gzipFileName s :
  Js.endsWith s ".traineddata.gz" = true ↔ ∃ lang, s = gzipFileName lang.
Proof.
  split.
  - apply endsWith_inv.
  - intros [lang ->]. apply endsWith_app.
Qed.

Lemma gzipFileName_inj l1 l2 : gzipFileName l1 = gzipFileName l2 → l1 = l2.
Proof. apply string_app_inj_r. Qed.

Lemma elem_of_installed (dir : list string) lang :
  lang ∈ codes_of dir ↔ gzipFileName lang ∈ dir.
Proof.
  rewrite list_elem_of_fmap. split.
  - intros (s & -> & [Hs Hin]%list_elem_of_filter).
    apply Is_true_true, endsWith_gzipFileName in Hs as [l ->].
    by rewrite strip_gzipFileName.
  - intros Hin. exists (gzipFileName lang). split.
    + by rewrite strip_gzipFileName.
    + apply list_elem_of_filter. split; [|done].
      apply Is_true_true, endsWith_gzipFileName. eauto.
Qed.

(** Putting the suffix back on the codes gives the names they were computed
    from, in their order and as often as they occur. *)
Lemma installed_names (dir : list string) :
  gzipFileName <$> codes_of dir =
  filter (fun s => Js.endsWith s ".traineddata.gz") dir.
Proof.
  induction dir as [|s dir IH]; [done|].
  destruct (Js.endsWith s ".traineddata.gz") eqn:E.
  - rewrite filter_cons_True by (by rewrite E). rewrite !fmap_cons, IH.
    apply endsWith_gzipFileName in E as [l ->].
    by rewrite strip_gzipFileName.
  - rewrite filter_cons_False; [exact IH|]. rewrite E. intros [].
Qed.

Lemma mkdir_tree_entry (dir : path) (fs fs' : Fs) (name : string) :
  mkdir_tree dir fs = Some fs' → fs' !! (name :: dir) = fs !! (name :: dir).
Proof.
  intros H. destruct (mkdir_tree_lookup dir fs fs' (name :: dir) H)
    as [?|(_ & _ & Hs)]; [done|].
  by apply suffix_cons_not in Hs.
Qed.

(** What a successful enumeration of the asset root reports. *)
Lemma readdir_after_mkdir w fs' names :
  mkdir_recursive (faults w) droot (fs w) = Some fs' →
  readdir (faults w) droot fs' = Some names →
  ∀ e, e ∈ names ↔ is_Some (fs w !! (e :: droot)).
Proof.
  intros Hmk Hrd e. unfold readdir in Hrd. unfold mkdir_recursive in Hmk.
  repeat case_bool_decide; try done.
  destruct (is_dir fs' droot); simplify_eq.
  by rewrite elem_of_entries, (mkdir_tree_entry _ _ _ _ Hmk).
Qed.

End AssetStore.

(** ** The claims on the asset store *)

Section AssetStoreClaims.

Variable ctx : Context.
Variable config : Config.

Local Abbreviation droot := (on_disk ctx (service_langPath ctx config)).

(** C2, amended: when the asset root can be created and enumerated,
    [getInstalledLangs] returns the names reported for the entries of the
    asset root that end with the 15-character suffix [.traineddata.gz], each
    with that suffix removed, in the order of the enumeration: putting the
    suffix back on the codes returned gives exactly the reported names that
    end with it.  So a code is returned if and only if it is the name
    reported for an entry stored in the asset root, without the suffix. *)
Theorem getInstalledLangs_exact w fs' names :
  mkdir_recursive (faults w) droot (fs w) = Some fs' →
  readdir (faults w) droot fs' = Some names →
  String.length ".traineddata.gz" = 15 ∧
  (∀ e, e ∈ names ↔ is_Some (fs w !! (e :: droot))) ∧
  (∀ name, Js.endsWith name ".traineddata.gz" = true ↔
           ∃ L, name = L +:+ ".traineddata.gz") ∧
  ∃ langs,
    getInstalledLangs ctx config w = (Return langs, set_fs fs' w) ∧
    (fun L => L +:+ ".traineddata.gz") <$> langs =
      filter (fun name => Js.endsWith name ".traineddata.gz")
        (listed_name ctx <$> names) ∧
    (∀ L, L ∈ langs ↔
          ∃ e, is_Some (fs w !! (e :: droot)) ∧
               listed_name ctx e = L +:+ ".traineddata.gz").
Proof.
  intros Hmk Hrd. split; [done|].
  pose proof (readdir_after_mkdir ctx config w fs' names Hmk Hrd) as Hnames.
  split; [done|]. split; [apply endsWith_gzipFileName|].
  eexists. split; [|split].
  - rewrite getInstalledLangs_cases, Hmk, Hrd. reflexivity.
  - apply installed_names.
  - intros L. rewrite elem_of_installed, list_elem_of_fmap.
    split.
    + intros (e & He & Hin). exists e. split; [by apply Hnames|done].
    + intros (e & Hin & He). exists e. split; [done|by apply Hnames].
Qed.

(** C4: [getInstalledLangs] never throws, whatever the filesystem and its
    faults are; when the creation of the asset root or its enumeration fails,
    the result is the empty list. *)
Theorem getInstalledLangs_never_throws w :
  (∃ langs w', getInstalledLangs ctx config w = (Return langs, w')) ∧
  (mkdir_recursive (faults w) droot (fs w) = None →
   (getInstalledLangs ctx config w).1 = Return []) ∧
  (∀ fs', mkdir_recursive (faults w) droot (fs w) = Some fs' →
          readdir (faults w) droot fs' = None →
          (getInstalledLangs ctx config w).1 = Return []).
Proof.
  split; [apply getInstalledLangs_returns|].
  rewrite getInstalledLangs_cases. split.
  - by intros ->.
  - by intros fs' -> ->.
Qed.

End AssetStoreClaims.

(** C2, as stated, fails: in a world whose asset root holds the entry
    [eng.traineddata.gz] and cannot be enumerated, the entry ends with the
    suffix and [getInstalledLangs] returns the empty list. *)
Lemma listing_failure_hides_assets :
  fs unlistable_eng_world
    !! ("eng.traineddata.gz"
          :: on_disk sample_ctx (service_langPath sample_ctx default_config))
    = Some (File body_B) ∧
  Js.endsWith (listed_name sample_ctx "eng.traineddata.gz") ".traineddata.gz"
    = true ∧
  (getInstalledLangs sample_ctx default_config unlistable_eng_world).1
    = Return [].
Proof. split; [|split]; reflexivity. Qed.

(** The listing of a world with [eng] installed. *)
Lemma getInstalledLangs_exact_witness :
  mkdir_recursive (faults eng_world)
    (on_disk sample_ctx (service_langPath sample_ctx default_config))
    (fs eng_world) = Some (fs eng_world) ∧
  readdir (faults eng_world)
    (on_disk sample_ctx (service_langPath sample_ctx default_config))
    (fs eng_world) = Some ["eng.traineddata.gz"] ∧
  ∃ langs,
    getInstalledLangs sample_ctx default_config eng_world
    = (Return langs, set_fs (fs eng_world) eng_world) ∧
    (fun L => L +:+ ".traineddata.gz") <$> langs = ["eng.traineddata.gz"].
Proof.
  assert (mkdir_recursive (faults eng_world)
            (on_disk sample_ctx (service_langPath sample_ctx default_config))
            (fs eng_world)
          = Some (fs eng_world)) as Hmk by reflexivity.
  assert (readdir (faults eng_world)
            (on_disk sample_ctx (service_langPath sample_ctx default_config))
            (fs eng_world)
          = Some ["eng.traineddata.gz"]) as Hrd by reflexivity.
  split; [exact Hmk|]. split; [exact Hrd|].
  destruct (getInstalledLangs_exact sample_ctx default_config eng_world
              (fs eng_world) ["eng.traineddata.gz"] Hmk Hrd)
    as (_ & _ & _ & langs & Hrun & Hnames & _).
  exists langs. split; [exact Hrun|exact Hnames].
Defined.

(** The listing of an asset root that cannot be listed. *)
Lemma getInstalledLangs_never_throws_witness :
  (∃ fs', mkdir_recursive (faults unlistable_world)
            (on_disk sample_ctx (service_langPath sample_ctx default_config))
            (fs unlistable_world)
          = Some fs' ∧
          readdir (faults unlistable_world)
            (on_disk sample_ctx (service_langPath sample_ctx default_config))
            fs' = None) ∧
  (getInstalledLangs sample_ctx default_config unlistable_world).1 = Return [].
Proof.
  assert (∃ fs', mkdir_recursive (faults unlistable_world)
            (on_disk sample_ctx (service_langPath sample_ctx default_config))
            (fs unlistable_world)
          = Some fs' ∧
          readdir (faults unlistable_world)
            (on_disk sample_ctx (service_langPath sample_ctx default_config))
            fs' = None) as H.
  { eexists. split; reflexivity. }
  split; [exact H|].
  destruct H as (fs' & Hmk & Hrd).
  destruct (getInstalledLangs_never_throws sample_ctx default_config
              unlistable_world) as (_ & _ & Hfail).
  exact (Hfail fs' Hmk Hrd).
Defined.

(** ** The worker factory *)

Section WorkerFactory.

Variable ctx : Context.
Variable config : Config.

Local Abbreviation root := (service_langPath ctx config).
Local Abbreviation missing_message := "缺失 Tesseract.js 语言训练数据：".

(** The defaults of [createWorker], and the options given to the engine. *)
Local Abbreviation defaults :=
  ({[ "langPath" := VString (to_string root) ]} : JsObject).

(** The worker [createWorker] asks the engine for in world [w1]. *)
Local Abbreviation request langs options w1 :=
  (mkWorker (length (workers w1)) langs 1 (default ∅ options ∪ defaults)).

Lemma truthy_nat_length {A} (l : list A) :
  Js.truthy_nat (length l) = match l with [] => false | _ => true end.
Proof. by destruct l. Qed.

(** What [createWorker] does, by the result of the listing. *)
Lemma createWorker_cases langs options w installedLangs w1 :
  getInstalledLangs ctx config w = (Return installedLangs, w1) →
  createWorker ctx config langs options w =
  match missing_of installedLangs langs with
  | [] =>
      Tesseract_createWorker ctx langs 1 (default ∅ options ∪ defaults) w1
  | missing =>
      (Throw (SessionError (missing_message +:+ Js.join ", " missing)), w1)
  end.
Proof.
  intros Hlist. unfold createWorker, bind. rewrite Hlist.
  rewrite truthy_nat_length.
  by destruct (missing_of installedLangs langs).
Qed.

(** What the engine's [createWorker] does, by the answer of the engine. *)
Lemma Tesseract_createWorker_cases langs oem options w :
  let k := mkWorker (length (workers w)) langs oem options in
  Tesseract_createWorker ctx langs oem options w =
  match engine_create ctx w k with
  | Builds => (Return k, add_worker k (add_asked k w))
  | Rejects => (Throw EngineError, add_asked k w)
  | Silent => (Never, add_asked k w)
  end.
Proof. reflexivity. Qed.

Lemma elem_of_missing_of installedLangs langs L :
  L ∈ missing_of installedLangs langs ↔ L ∈ langs ∧ L ∉ installedLangs.
Proof.
  unfold missing_of, Js.includes. rewrite list_elem_of_filter.
  rewrite negb_True, bool_decide_spec. tauto.
Qed.

(** C1, amended: [createWorker] lists the installed codes and takes the
    codes of [langs] that are not among them.  When there are such codes it
    throws the session error whose message names them, in their order in
    [langs], and the engine is not asked for a worker and has built none.
    When there are none, the engine is asked for a worker for [langs] and the
    promise of the engine is what [createWorker] returns: the worker when the
    engine builds it, the engine's rejection when it does not, and no answer
    as long as the engine gives none. *)
Theorem createWorker_checks_assets langs options w :
  ∃ installedLangs w1,
    getInstalledLangs ctx config w = (Return installedLangs, w1) ∧
    asked w1 = asked w ∧ workers w1 = workers w ∧
    (∀ L, L ∈ missing_of installedLangs langs ↔ L ∈ langs ∧ L ∉ installedLangs) ∧
    match missing_of installedLangs langs with
    | [] =>
        ∃ k w', w_langs k = langs ∧ asked w' = asked w ++ [k] ∧
          match engine_create ctx w1 k with
          | Builds =>
              createWorker ctx config langs options w = (Return k, w') ∧
              workers w' = workers w ++ [k]
          | Rejects =>
              createWorker ctx config langs options w = (Throw EngineError, w') ∧
              workers w' = workers w
          | Silent =>
              createWorker ctx config langs options w = (Never, w') ∧
              workers w' = workers w
          end
    | missing =>
        ∃ w', createWorker ctx config langs options w =
              (Throw (SessionError (missing_message +:+ Js.join ", " missing)), w') ∧
              asked w' = asked w ∧ workers w' = workers w
    end.
Proof.
  destruct (getInstalledLangs_returns ctx config w) as (installedLangs & w1 & Hl).
  destruct (getInstalledLangs_frame ctx config _ _ _ Hl) as (_ & _ & Ha & Hw & _).
  exists installedLangs, w1.
  split; [done|]. split; [done|]. split; [done|].
  split; [intros L; apply elem_of_missing_of|].
  rewrite (createWorker_cases _ _ _ _ _ Hl).
  destruct (missing_of installedLangs langs); [|by eauto].
  rewrite Tesseract_createWorker_cases. cbv zeta.
  exists (request langs options w1).
  destruct (engine_create ctx w1 _);
    [exists (add_worker (request langs options w1)
               (add_asked (request langs options w1) w1))
    |exists (add_asked (request langs options w1) w1)..];
    simpl; rewrite ?Ha, ?Hw; done.
Qed.

(** C7, amended: the worker returned by [createWorker] is configured with
    the caller's options merged over the default, which is the asset root as
    language-data path; every option of the caller is kept as given, and the
    language-data path is the asset root when the caller gives no [langPath]
    of their own.  When nothing is missing, the worker so configured is the
    only one [createWorker] can return, and it is returned when the engine
    builds it. *)
Theorem createWorker_options langs options w installedLangs w1 :
  getInstalledLangs ctx config w = (Return installedLangs, w1) →
  missing_of installedLangs langs = [] →
  ∃ k,
    (engine_create ctx w1 k = Builds →
     ∃ w', createWorker ctx config langs options w = (Return k, w')) ∧
    (∀ k' w', createWorker ctx config langs options w = (Return k', w') →
              k' = k) ∧
    (∀ key v, default ∅ options !! key = Some v → w_options k !! key = Some v) ∧
    (∀ key, default ∅ options !! key = None →
            w_options k !! key = defaults !! key) ∧
    (default ∅ options !! "langPath" = None →
     w_options k !! "langPath" = Some (VString (to_string root))).
Proof.
  intros Hl Hm. rewrite (createWorker_cases _ _ _ _ _ Hl), Hm.
  rewrite Tesseract_createWorker_cases. cbv zeta.
  exists (request langs options w1). split; [|split].
  - intros ->. eauto.
  - intros k' w'. destruct (engine_create ctx w1 _); congruence.
  - simpl. repeat split.
    + intros key v Hk. by apply lookup_union_Some_l.
    + intros key Hk. by rewrite lookup_union_r.
    + intros Hk. rewrite lookup_union_r by done. apply lookup_singleton_eq.
Qed.

End WorkerFactory.

(** C1, as stated, fails: on a host whose engine cannot load, with [eng]
    installed and asked for, nothing is missing and [createWorker] throws the
    engine's error; no worker is constructed and none is returned. *)
Lemma createWorker_engine_rejects :
  (getInstalledLangs broken_ctx default_config eng_world).1 = Return ["eng"] ∧
  missing_of ["eng"] ["eng"] = [] ∧
  (createWorker broken_ctx default_config ["eng"] None eng_world).1
    = Throw EngineError ∧
  workers (createWorker broken_ctx default_config ["eng"] None eng_world).2 = [].
Proof. repeat split; reflexivity. Qed.

(** C7, as stated, fails: a caller that gives its own [langPath] gets a
    worker whose language-data path is not the asset root. *)
Lemma createWorker_langPath_overridden :
  ¬ (∀ options w k w',
       createWorker sample_ctx default_config [] options w = (Return k, w') →
       w_options k !! "langPath" =
       Some (VString (to_string (service_langPath sample_ctx default_config)))).
Proof.
  intros H.
  specialize (H (Some {[ "langPath" := VString "/elsewhere" ]}) empty_world
                _ _ eq_refl).
  discriminate H.
Qed.

(** A caller without options, on a world with [eng] installed. *)
Lemma createWorker_options_witness :
  getInstalledLangs sample_ctx default_config eng_world
  = (Return ["eng"], eng_world) ∧
  missing_of ["eng"] ["eng"] = [] ∧
  ∃ k w', createWorker sample_ctx default_config ["eng"] None eng_world
          = (Return k, w') ∧
    w_options k !! "langPath" = Some (VString "/koishi/data/tesseract").
Proof.
  assert (getInstalledLangs sample_ctx default_config eng_world
          = (Return ["eng"], eng_world)) as Hl by reflexivity.
  assert (missing_of ["eng"] ["eng"] = []) as Hm by reflexivity.
  split; [exact Hl|]. split; [exact Hm|].
  destruct (createWorker_options sample_ctx default_config ["eng"] None
              eng_world ["eng"] eng_world Hl Hm)
    as (k & Hrun & Honly & _ & _ & Hpath).
  destruct (Hrun eq_refl) as [w' Hw'].
  exists k, w'. split; [exact Hw'|]. apply Hpath. reflexivity.
Defined.

(** ** Substitution into the download template *)

Section Substitution.

(** A replacement text without patterns is inserted as it stands. *)
Lemma GetSubstitution_plain matched before after repl :
  Js.has_pattern repl = false →
  Js.GetSubstitution matched before after repl = repl.
Proof.
  induction repl as [|c r IH]; [done|]. simpl.
  intros [Hc Hr]%orb_false_elim. specialize (IH Hr).
  destruct (Ascii.eqb c "$") eqn:Ec; [|by rewrite IH].
  simpl in Hc. destruct r as [|d r']; [done|].
  simpl in Hc. apply orb_false_elim in Hc as [Hc H4].
  apply orb_false_elim in Hc as [Hc H3].
  apply orb_false_elim in Hc as [H1 H2].
  rewrite H1, H2, H3, H4. by rewrite IH.
Qed.

Lemma replace_go_plain pat repl before s skip :
  Js.has_pattern repl = false →
  Js.replace_go pat repl before s skip = substitute_go pat repl s skip.
Proof.
  intros Hr. revert before skip.
  induction s as [|c s IH]; intros before skip; [done|].
  cbn [Js.replace_go substitute_go]. destruct skip as [|k]; [|apply IH].
  rewrite GetSubstitution_plain, !IH by done.
  by destruct (Js.startsWith (String c s) pat).
Qed.

Lemma replace_g_plain s pat repl :
  Js.has_pattern repl = false →
  Js.replace_g s pat repl = substitute_all s pat repl.
Proof. apply replace_go_plain. Qed.

Lemma pattern_tail_app r t :
  Js.pattern_tail t = false →
  Js.pattern_tail (r +:+ t) = Js.pattern_tail r.
Proof. by destruct r. Qed.

Lemma has_pattern_app s t :
  Js.has_pattern s = false → Js.pattern_tail t = false →
  Js.has_pattern t = false → Js.has_pattern (s +:+ t) = false.
Proof.
  intros Hs Ht1 Ht2. induction s as [|c r IH]; [done|].
  simpl in Hs. apply orb_false_elim in Hs as [Hc Hr].
  change (String c r +:+ t) with (String c (r +:+ t)). simpl.
  by rewrite pattern_tail_app, Hc, IH.
Qed.

End Substitution.

(** ** The installer *)

Section Installer.

Variable ctx : Context.
Variable config : Config.

Local Abbreviation root := (service_langPath ctx config).
Local Abbreviation droot := (on_disk ctx (service_langPath ctx config)).

Local Abbreviation download_request := (download_request config).
Local Abbreviation requested := (requested ctx config).

(** What [installLang] does, by the outcome of its three calls. *)
Lemma installLang_cases lang w :
  installLang ctx config lang w =
  match http_answer ctx (length (requests w)) (download_request lang) with
  | None => (Throw (HttpError (download_url config lang)), requested lang w)
  | Some resp =>
      match mkdir_recursive (faults w) droot (fs w) with
      | None => (Throw (IOError "mkdir" root), requested lang w)
      | Some fs1 =>
          let target := gzipFilePath ctx config lang in
          let w1 := set_fs fs1 (requested lang w) in
          let opened := can_open (faults w) (on_disk ctx target) fs1 in
          let written body :=
            set_fs (<[on_disk ctx target := File body]> fs1) (requested lang w) in
          match ending resp with
          | Closes =>
              if opened then
                (Return tt,
                 add_log (mkLog Info "安装成功" None)
                   (written (Buffer_concat (chunks resp))))
              else (Throw (IOError "open" target), w1)
          | Fails =>
              match left_behind resp with
              | None => (Throw StreamError, w1)
              | Some body =>
                  if opened then (Throw StreamError, written body)
                  else (Throw (IOError "open" target), w1)
              end
          | Stalls =>
              if opened then (Never, written (default [] (left_behind resp)))
              else (Throw (IOError "open" target), w1)
          end
      end
  end.
Proof.
  unfold installLang, bind, logger, http_get, http_request, fs_mkdir, pipeTo.
  simpl. fold (download_request lang).
  destruct (http_answer ctx _ _) as [resp|]; [|done]. simpl.
  destruct (mkdir_recursive _ _ _) as [fs1|]; [|done]. simpl.
  destruct (ending resp).
  - by destruct (can_open _ _ _).
  - destruct (left_behind resp); [|done]. by destruct (can_open _ _ _).
  - by destruct (can_open _ _ _).
Qed.

(** C10: when the request of [installLang] fails or times out, [installLang]
    throws and the filesystem is as it was: no directory has been created
    and no file has been written. *)
Theorem installLang_request_fails lang w :
  http_answer ctx (length (requests w)) (download_request lang) = None →
  (installLang ctx config lang w).1 = Throw (HttpError (download_url config lang)) ∧
  fs (installLang ctx config lang w).2 = fs w.
Proof. intros H. rewrite installLang_cases, H. done. Qed.

(** [gzipFilePath] is what [path.resolve] gives on the string of the asset
    root and the name of the file. *)
Lemma gzipFilePath_from_string lang :
  resolved (cwd ctx) →
  resolve (cwd ctx) [to_string root; gzipFileName lang]
  = gzipFilePath ctx config lang.
Proof.
  intros Hcwd. apply resolve_from_string. by apply resolve_is_resolved.
Qed.

Lemma gzipFileName_long lang : 2 < String.length (gzipFileName lang).
Proof. unfold gzipFileName. rewrite string_length_app. simpl. lia. Qed.

Lemma gzipFileName_contains c lang :
  Js.contains c (gzipFileName lang) =
  Js.contains c lang || Js.contains c ".traineddata.gz".
Proof. apply contains_app. Qed.

(** The file of a code without a slash is the entry of its name in the
    asset root. *)
Lemma gzipFilePath_plain lang :
  Js.contains "/" lang = false →
  gzipFilePath ctx config lang = gzipFileName lang :: root.
Proof.
  intros H. apply resolve_plain_name.
  - by rewrite gzipFileName_contains, H.
  - apply gzipFileName_long.
Qed.


Lemma download_url_plain lang :
  Js.has_pattern lang = false → download_url config lang = spec_url config lang.
Proof.
  intros H. unfold download_url, spec_url, gzipFileName.
  rewrite (replace_g_plain (source config)) by done.
  apply replace_g_plain. by apply has_pattern_app.
Qed.

Lemma installLang_requests lang w :
  requests (installLang ctx config lang w).2 =
  requests w ++ [download_request lang].
Proof.
  rewrite installLang_cases.
  destruct (http_answer ctx _ _) as [resp|]; [|done].
  destruct (mkdir_recursive _ _ _) as [fs1|]; [|done]. cbv zeta.
  repeat case_match; done.
Qed.

Lemma is_dir_insert_ne (g : Fs) (p q : path) n :
  p ≠ q → is_dir (<[p := n]> g) q = is_dir g q.
Proof.
  intros Hne. destruct q as [|s q]; [done|]. simpl.
  by rewrite lookup_insert_ne.
Qed.

(** What a successful [installLang] has done. *)
Lemma installLang_returns lang w w' :
  installLang ctx config lang w = (Return tt, w') →
  ∃ resp fs1,
    http_answer ctx (length (requests w)) (download_request lang) = Some resp ∧
    closes resp = true ∧
    mkdir_recursive (faults w) droot (fs w) = Some fs1 ∧
    can_open (faults w) (on_disk ctx (gzipFilePath ctx config lang)) fs1 = true ∧
    faults w' = faults w ∧
    fs w' = <[on_disk ctx (gzipFilePath ctx config lang)
                := File (Buffer_concat (chunks resp))]> fs1.
Proof.
  rewrite installLang_cases.
  destruct (http_answer ctx _ _) as [resp|]; [|done].
  destruct (mkdir_recursive _ _ _) as [fs1|]; [|done]. cbv zeta.
  unfold closes. destruct (ending resp) eqn:Hc.
  - destruct (can_open _ _ _) eqn:Ho; [|done].
    intros Heq. injection Heq as <-. exists resp, fs1.
    rewrite Hc. repeat split; done.
  - destruct (left_behind resp); [|done]. by destruct (can_open _ _ _).
  - by destruct (can_open _ _ _).
Qed.

(** C3, amended: for a code without a slash whose file name comes back from
    the file system as it went in, after a successful [installLang] a listing
    of the asset root that does not fail contains the code. *)
Theorem installLang_then_listed lang w w' :
  Js.contains "/" lang = false →
  listed_name ctx (fs_name ctx (lang +:+ ".traineddata.gz"))
    = lang +:+ ".traineddata.gz" →
  installLang ctx config lang w = (Return tt, w') →
  droot ∉ readdir_denied (faults w') →
  ∃ langs w'', getInstalledLangs ctx config w' = (Return langs, w'') ∧
               lang ∈ langs.
Proof.
  intros Hslash Hname Hrun Hread.
  apply installLang_returns in Hrun
    as (resp & fs1 & _ & _ & Hmk & _ & Hfl & Hfs).
  rewrite (gzipFilePath_plain _ Hslash) in Hfs.
  rewrite Hfl in Hread.
  unfold mkdir_recursive in Hmk. case_bool_decide as Hden; [done|].
  set (target := on_disk ctx (gzipFileName lang :: root)) in *.
  assert (mkdir_tree droot (fs w') = Some (fs w')) as Hmk2.
  { apply mkdir_tree_existing. intros q Hq. rewrite Hfs.
    rewrite is_dir_insert_ne; [by eapply mkdir_tree_is_dir|].
    intros <-. by apply suffix_cons_not in Hq. }
  rewrite getInstalledLangs_cases, Hfl. unfold mkdir_recursive, readdir.
  rewrite bool_decide_eq_false_2, Hmk2 by done.
  rewrite bool_decide_eq_false_2 by done.
  rewrite (mkdir_tree_is_dir _ _ _ droot Hmk2) by done.
  eexists _, _. split; [reflexivity|].
  apply elem_of_installed, list_elem_of_fmap.
  exists (fs_name ctx (gzipFileName lang)). split; [symmetry; exact Hname|].
  apply elem_of_entries. rewrite Hfs.
  unfold target. cbn [on_disk fmap list_fmap]. rewrite lookup_insert_eq. eauto.
Qed.

End Installer.

(** C6: the codes [$&] and [/x].  For [$&] the URL requested is not the
    template with the code put in: [replace] expands [$&] to the placeholder
    itself.  For [/x] the install succeeds and writes to [/x.traineddata.gz]
    and nothing to [<asset root>//x.traineddata.gz]: [path.resolve] starts
    again at the root of the filesystem. *)
Lemma installLang_odd_codes :
  spec_url default_config "$&" =
    "https://unpkg.com/@tesseract.js-data/$&/4.0.0_best_int/$&.traineddata.gz" ∧
  requests (installLang sample_ctx default_config "$&" empty_world).2 =
    [mkRequest
       "https://unpkg.com/@tesseract.js-data/{lang}/4.0.0_best_int/{file}.traineddata.gz"
       "stream" (Some 30000%N)] ∧
  (installLang sample_ctx default_config "/x" empty_world).1 = Return tt ∧
  under (service_langPath sample_ctx default_config) ("/x" +:+ ".traineddata.gz")
    = "x.traineddata.gz" :: sample_root ∧
  fs (installLang sample_ctx default_config "/x" empty_world).2
    !! ("x.traineddata.gz" :: sample_root) = None ∧
  fs (installLang sample_ctx default_config "/x" empty_world).2
    !! ["x.traineddata.gz"] = Some (File body_A).
Proof. repeat split; reflexivity. Qed.

(** C3, as stated, fails in three ways: the code [eng] installed into an
    asset root that cannot be listed is not listed; the code made of a lone
    surrogate is stored under the name U+FFFD and listed as U+FFFD; and the
    code [../x] is installed outside the asset root and is not listed. *)
Lemma installLang_not_listed :
  ((installLang sample_ctx default_config "eng" unlistable_world).1 = Return tt ∧
   (getInstalledLangs sample_ctx default_config
      (installLang sample_ctx default_config "eng" unlistable_world).2).1
   = Return []) ∧
  ((installLang sample_ctx default_config lone_code empty_world).1 = Return tt ∧
   (getInstalledLangs sample_ctx default_config
      (installLang sample_ctx default_config lone_code empty_world).2).1
   = Return [replacement] ∧
   lone_code ≠ replacement) ∧
  ((installLang sample_ctx default_config "../x" empty_world).1 = Return tt ∧
   (getInstalledLangs sample_ctx default_config
      (installLang sample_ctx default_config "../x" empty_world).2).1
   = Return []).
Proof. repeat split; try reflexivity. discriminate. Qed.

(** A failing request on the offline host. *)
Lemma installLang_request_fails_witness :
  http_answer offline_ctx (length (requests empty_world))
    (download_request default_config "eng") = None ∧
  (installLang offline_ctx default_config "eng" empty_world).1 =
    Throw (HttpError "https://unpkg.com/@tesseract.js-data/eng/4.0.0_best_int/eng.traineddata.gz") ∧
  fs (installLang offline_ctx default_config "eng" empty_world).2 = fs empty_world.
Proof.
  split; [reflexivity|].
  apply (installLang_request_fails offline_ctx default_config "eng" empty_world).
  reflexivity.
Defined.

(** The install of [eng] on the sample host, and the listing after it. *)
Lemma installLang_then_listed_witness :
  Js.contains "/" "eng" = false ∧
  listed_name sample_ctx (fs_name sample_ctx "eng.traineddata.gz")
    = "eng.traineddata.gz" ∧
  installLang sample_ctx default_config "eng" empty_world =
    (Return tt, (installLang sample_ctx default_config "eng" empty_world).2) ∧
  ∃ langs w'',
    getInstalledLangs sample_ctx default_config
      (installLang sample_ctx default_config "eng" empty_world).2
    = (Return langs, w'') ∧ "eng" ∈ langs.
Proof.
  split; [reflexivity|]. split; [reflexivity|].
  assert (installLang sample_ctx default_config "eng" empty_world =
          (Return tt, (installLang sample_ctx default_config "eng" empty_world).2))
    as Hrun by reflexivity.
  split; [exact Hrun|].
  apply (installLang_then_listed sample_ctx default_config "eng" empty_world
           _ eq_refl eq_refl Hrun).
  apply not_elem_of_empty.
Defined.

(** ** Concurrent installs *)

Section Pool.

Variable ctx : Context.
Variable config : Config.

Local Abbreviation root := (service_langPath ctx config).
Local Abbreviation droot := (on_disk ctx (service_langPath ctx config)).
Local Abbreviation download_request := (download_request config).
Local Abbreviation requested := (requested ctx config).

Lemma install_begin_eq lang w :
  install_begin ctx config lang w =
  (mkTask lang
     (AwaitGet (http_answer ctx (length (requests w)) (download_request lang))),
   requested lang w).
Proof. reflexivity. Qed.

(** The last step of an install: the pipe and the message of success. *)
Lemma pipe_step_cases resp (target : path) w :
  (pipeTo ctx resp target ;; logger Info "安装成功" None)%async w =
  let opened := can_open (faults w) (on_disk ctx target) (fs w) in
  let written body := set_fs (<[on_disk ctx target := File body]> (fs w)) w in
  match ending resp with
  | Closes =>
      if opened then
        (Return tt,
         add_log (mkLog Info "安装成功" None)
           (written (Buffer_concat (chunks resp))))
      else (Throw (IOError "open" target), w)
  | Fails =>
      match left_behind resp with
      | None => (Throw StreamError, w)
      | Some body =>
          if opened then (Throw StreamError, written body)
          else (Throw (IOError "open" target), w)
      end
  | Stalls =>
      if opened then (Never, written (default [] (left_behind resp)))
      else (Throw (IOError "open" target), w)
  end.
Proof.
  unfold bind, pipeTo, logger.
  destruct (ending resp).
  - by destruct (can_open _ _ _).
  - destruct (left_behind resp); [|done]. by destruct (can_open _ _ _).
  - by destruct (can_open _ _ _).
Qed.

(** The pipe issues no request, and it is never settled only on a stream
    that stalls. *)
Lemma pipe_step_outcome resp (target : path) w :
  ∃ c w', (pipeTo ctx resp target ;; logger Info "安装成功" None)%async w
          = (c, w') ∧
          (c = Return tt ∨ (∃ e, c = Throw e) ∨
           (c = Never ∧ ending resp = Stalls)) ∧
          requests w' = requests w.
Proof.
  rewrite pipe_step_cases. cbv zeta.
  destruct (ending resp); [|destruct (left_behind resp)|];
    try destruct (can_open _ _ _); eauto 10.
Qed.

(** An install that is begun and resumed three times with nothing in
    between is [installLang] awaited on its own. *)
Lemma installLang_as_task lang w :
  let s0 := install_begin ctx config lang w in
  let s1 := install_resume ctx config s0.1 s0.2 in
  let s2 := install_resume ctx config s1.1 s1.2 in
  let s3 := install_resume ctx config s2.1 s2.2 in
  ∃ c, installLang ctx config lang w = (c, s3.2) ∧
       s3.1 = mkTask lang (match c with Never => Hanging | _ => Settled c end).
Proof.
  rewrite installLang_cases, install_begin_eq.
  unfold install_resume, fs_mkdir. simpl.
  destruct (http_answer ctx _ _) as [resp|]; simpl; [|by eauto].
  destruct (mkdir_recursive _ _ _) as [fs1|]; simpl; [|by eauto].
  rewrite pipe_step_cases. simpl.
  destruct (ending resp).
  - destruct (can_open _ _ _); eauto.
  - destruct (left_behind resp); [|by eauto]. destruct (can_open _ _ _); eauto.
  - destruct (can_open _ _ _); eauto.
Qed.

Lemma begin_all_spec langs w :
  task_lang <$> (begin_all ctx config langs w).1 = langs ∧
  fs (begin_all ctx config langs w).2 = fs w ∧
  faults (begin_all ctx config langs w).2 = faults w ∧
  requests (begin_all ctx config langs w).2 =
    requests w ++ (download_request <$> langs).
Proof.
  revert w. induction langs as [|lang langs IH]; intros w.
  - simpl. by rewrite app_nil_r.
  - cbn [begin_all]. rewrite install_begin_eq.
    specialize (IH (requested lang w)).
    destruct (begin_all ctx config langs (requested lang w)) as [ts w2].
    simpl in *. destruct IH as (Hl & Hf & Hfl & Hr). rewrite Hf, Hfl, Hr.
    split; [by f_equal|]. split; [done|]. split; [done|].
    by rewrite <- (assoc_L (++)).
Qed.

Lemma install_resume_spec t w :
  task_lang (install_resume ctx config t w).1 = task_lang t ∧
  requests (install_resume ctx config t w).2 = requests w.
Proof.
  unfold install_resume.
  destruct (task_stage t) as [[resp|]|resp|resp| |c]; simpl; try done.
  - unfold fs_mkdir. by destruct (mkdir_recursive _ _ _).
  - destruct (pipe_step_outcome resp (gzipFilePath ctx config (task_lang t)) w)
      as (c & w' & -> & [->|[[e ->]|[-> _]]] & Hr); done.
Qed.

Lemma resume_in_pool_spec i pl w :
  task_lang <$> pool_tasks (resume_in_pool ctx config i pl w).1 =
    task_lang <$> pool_tasks pl ∧
  requests (resume_in_pool ctx config i pl w).2 = requests w.
Proof.
  unfold resume_in_pool.
  destruct (pool_tasks pl !! i) as [t|] eqn:Ei; [|done].
  pose proof (install_resume_spec t w) as [Hl Hr].
  destruct (install_resume ctx config t w) as [t' w']. simpl in *.
  split; [|done].
  rewrite list_fmap_insert, Hl. apply list_insert_id.
  by rewrite list_lookup_fmap, Ei.
Qed.

Lemma run_schedule_spec sched pl w :
  task_lang <$> pool_tasks (run_schedule ctx config sched pl w).1 =
    task_lang <$> pool_tasks pl ∧
  requests (run_schedule ctx config sched pl w).2 = requests w.
Proof.
  revert pl w. induction sched as [|i sched IH]; intros pl w; [done|].
  simpl. pose proof (resume_in_pool_spec i pl w) as [Hl Hr].
  destruct (resume_in_pool ctx config i pl w) as [pl' w']. simpl in *.
  destruct (IH pl' w') as [-> ->]. done.
Qed.

Lemma installNecessaryLangs_eq langs sched w installedLangs w0 :
  getInstalledLangs ctx config w = (Return installedLangs, w0) →
  installNecessaryLangs ctx config langs sched w =
  let started := begin_all ctx config (missing_of installedLangs langs) w0 in
  let run := run_schedule ctx config sched (mkPool started.1 None) started.2 in
  (run.1, promise_all run.1, run.2).
Proof.
  intros H. unfold installNecessaryLangs. rewrite H.
  destruct (begin_all _ _ _ _) as [tasks w1]. simpl.
  by destruct (run_schedule _ _ _ _ _) as [pl w2].
Qed.

(** An installed code is the name reported for an entry of the asset root,
    without the suffix. *)
Lemma installed_has_asset w installedLangs w0 A :
  getInstalledLangs ctx config w = (Return installedLangs, w0) →
  A ∈ installedLangs →
  ∃ e, is_Some (fs w !! (e :: droot)) ∧ listed_name ctx e = gzipFileName A.
Proof.
  rewrite getInstalledLangs_cases.
  destruct (mkdir_recursive _ _ _) as [fs'|] eqn:Hmk.
  - destruct (readdir _ _ _) as [names|] eqn:Hrd; intros Heq HA; simplify_eq.
    + apply elem_of_installed, list_elem_of_fmap in HA as (e & He & Hin).
      exists e. split; [|done].
      by apply (readdir_after_mkdir ctx config w fs' names Hmk Hrd).
    + by apply elem_of_nil in HA.
  - intros Heq HA; simplify_eq. by apply elem_of_nil in HA.
Qed.

End Pool.

(** ** What the operations leave in place

    The entry at a path [p] goes through the operations in steps related by
    [R], for every relation [R] that allows what [mkdir] does and what the
    pipes to the files in [writes] do. *)

Create HintDb keeps discriminated.

Section Frame.

Variable ctx : Context.
Variable config : Config.
Variable p : path.
Variable R : relation (option Node).
Variable writes : path → Prop.

Hypothesis R_refl : ∀ x, R x x.
Hypothesis R_trans : ∀ x y z, R x y → R y z → R x z.
Hypothesis R_mkdir : R None (Some Dir).
Hypothesis R_write : ∀ old body, writes p → R old (Some (File body)).

Local Abbreviation root := (service_langPath ctx config).
Local Abbreviation keeps := (preserves R p).

Lemma keeps_ret {A} (a : A) : keeps (ret a).
Proof. intros w. apply R_refl. Qed.

Lemma keeps_throw {A} e : keeps (@throw A e).
Proof. intros w. apply R_refl. Qed.

Lemma keeps_bind {A B} (m : Async A) (k : A → Async B) :
  keeps m → (∀ a, keeps (k a)) → keeps (bind m k).
Proof.
  intros Hm Hk w. unfold bind. specialize (Hm w).
  destruct (m w) as [[a|e|] w1]; simpl in *; [|done..].
  eapply R_trans; [exact Hm|]. apply Hk.
Qed.

Lemma keeps_try_catch {A} (m : Async A) h :
  keeps m → (∀ e, keeps (h e)) → keeps (try_catch m h).
Proof.
  intros Hm Hh w. unfold try_catch. specialize (Hm w).
  destruct (m w) as [[a|e|] w1]; simpl in *; [done| |done].
  eapply R_trans; [exact Hm|]. apply Hh.
Qed.

Lemma keeps_logger lvl msg arg : keeps (logger lvl msg arg).
Proof. intros w. apply R_refl. Qed.

Lemma keeps_http_get url ty timeout : keeps (http_get ctx url ty timeout).
Proof.
  intros w. unfold http_get, http_request.
  destruct (http_answer ctx _ _); apply R_refl.
Qed.

Lemma R_mkdir_tree (dir : path) (g g' : Fs) :
  mkdir_tree dir g = Some g' → R (g !! p) (g' !! p).
Proof.
  intros E. destruct (mkdir_tree_lookup dir g g' p E) as [->|(-> & -> & _)];
    [apply R_refl|apply R_mkdir].
Qed.

Lemma keeps_fs_mkdir dir : keeps (fs_mkdir ctx dir).
Proof.
  intros w. unfold fs_mkdir, mkdir_recursive.
  case_bool_decide; [apply R_refl|].
  destruct (mkdir_tree _ (fs w)) as [fs'|] eqn:E; [|apply R_refl].
  simpl. by eapply R_mkdir_tree.
Qed.

Lemma keeps_fs_readdir dir : keeps (fs_readdir ctx dir).
Proof.
  intros w. unfold fs_readdir. destruct (readdir _ _ _); apply R_refl.
Qed.

Lemma R_insert_file (target : path) (g : Fs) body :
  writes (on_disk ctx target) →
  R (g !! p) (<[on_disk ctx target := File body]> g !! p).
Proof.
  intros Hw. destruct (decide (on_disk ctx target = p)) as [Heq|Hne].
  - rewrite Heq in *. rewrite lookup_insert_eq. by apply R_write.
  - rewrite lookup_insert_ne by done. apply R_refl.
Qed.

Lemma keeps_pipeTo resp target :
  writes (on_disk ctx target) → keeps (pipeTo ctx resp target).
Proof.
  intros Hw w. unfold pipeTo.
  repeat case_match; simpl; try apply R_refl; by apply R_insert_file.
Qed.

Lemma keeps_streamToBuffer st : keeps (streamToBuffer st).
Proof.
  intros w. unfold streamToBuffer. destruct (ending st); apply R_refl.
Qed.

Lemma keeps_Tesseract_createWorker langs oem options :
  keeps (Tesseract_createWorker ctx langs oem options).
Proof.
  intros w. unfold Tesseract_createWorker.
  destruct (engine_create ctx w _); apply R_refl.
Qed.

Lemma keeps_worker_recognize k buffer :
  keeps (worker_recognize ctx k buffer).
Proof.
  intros w. unfold worker_recognize.
  destruct (engine_recognize ctx k buffer); apply R_refl.
Qed.

Lemma keeps_worker_terminate k : keeps (worker_terminate k).
Proof. intros w. apply R_refl. Qed.

Lemma keeps_session_send message : keeps (session_send message).
Proof. intros w. apply R_refl. Qed.

Hint Resolve keeps_ret keeps_throw keeps_bind keeps_try_catch keeps_logger
  keeps_http_get keeps_fs_mkdir keeps_fs_readdir keeps_pipeTo
  keeps_streamToBuffer keeps_Tesseract_createWorker keeps_worker_recognize
  keeps_worker_terminate keeps_session_send : keeps.

Ltac keeps := repeat (intros; first
  [ solve [eauto with keeps] | progress cbv zeta | case_match
  | apply keeps_bind | apply keeps_try_catch ]).

Lemma keeps_getInstalledLangs : keeps (getInstalledLangs ctx config).
Proof. unfold getInstalledLangs. keeps. Qed.

Lemma keeps_installLang lang :
  writes (on_disk ctx (gzipFilePath ctx config lang)) →
  keeps (installLang ctx config lang).
Proof. intros Hw. unfold installLang. keeps. Qed.

Hint Resolve keeps_getInstalledLangs keeps_installLang : keeps.

Lemma keeps_createWorker langs options :
  keeps (createWorker ctx config langs options).
Proof. unfold createWorker. keeps. Qed.

Hint Resolve keeps_createWorker : keeps.

Lemma keeps_command_lang_list : keeps (command_lang_list ctx config).
Proof. unfold command_lang_list. keeps. Qed.

Lemma keeps_command_lang_install lang :
  writes (on_disk ctx (gzipFilePath ctx config lang)) →
  keeps (command_lang_install ctx config lang).
Proof. intros Hw. unfold command_lang_install. keeps. Qed.

Lemma keeps_recognize_langs opt_langs :
  keeps (recognize_langs ctx config opt_langs).
Proof. unfold recognize_langs. keeps. Qed.

Hint Resolve keeps_recognize_langs : keeps.

Lemma keeps_command_recognize elements opt_langs opt_json :
  keeps (command_recognize ctx config elements opt_langs opt_json).
Proof. unfold command_recognize. keeps. Qed.

(** The steps of the concurrent installs. *)

Local Abbreviation allowed L := (writes (on_disk ctx (gzipFilePath ctx config L))).

Lemma install_resume_keeps t :
  allowed (task_lang t) → step_preserves R p (install_resume ctx config t).
Proof.
  intros Hw w. unfold install_resume.
  destruct (task_stage t) as [[resp|]|resp|resp| |c]; simpl; try apply R_refl.
  - pose proof (keeps_fs_mkdir root w) as H.
    by destruct (fs_mkdir ctx root w) as [[[]|e|] w'].
  - assert (keeps (bind (pipeTo ctx resp (gzipFilePath ctx config (task_lang t)))
                     (fun _ => logger Info "安装成功" None))) as H.
    { apply keeps_bind; [by apply keeps_pipeTo|intros; apply keeps_logger]. }
    specialize (H w).
    by destruct (bind _ _ w) as [[[]|e|] w'].
Qed.

Lemma resume_in_pool_keeps i pl :
  (∀ L, L ∈ task_lang <$> pool_tasks pl → allowed L) →
  step_preserves R p (resume_in_pool ctx config i pl).
Proof.
  intros Hne w. unfold resume_in_pool.
  destruct (pool_tasks pl !! i) as [t|] eqn:Ei; [|apply R_refl].
  assert (allowed (task_lang t)) as Ht.
  { apply Hne, list_elem_of_fmap. exists t. split; [done|].
    by eapply list_elem_of_lookup_2. }
  pose proof (install_resume_keeps t Ht w) as H.
  by destruct (install_resume ctx config t w).
Qed.

Lemma run_schedule_keeps sched pl :
  (∀ L, L ∈ task_lang <$> pool_tasks pl → allowed L) →
  step_preserves R p (run_schedule ctx config sched pl).
Proof.
  revert pl. induction sched as [|i sched IH]; intros pl Hne w; [apply R_refl|].
  simpl. pose proof (resume_in_pool_keeps i pl Hne w) as H.
  pose proof (resume_in_pool_spec ctx config i pl w) as [Hl _].
  destruct (resume_in_pool ctx config i pl w) as [pl' w']. simpl in *.
  eapply R_trans; [exact H|]. apply IH. by rewrite Hl.
Qed.

(** Every operation of the system. *)
Lemma exec_keeps op w :
  (∀ L, L ∈ installs ctx config op w → allowed L) →
  R (fs w !! p) (fs (exec ctx config op w) !! p).
Proof.
  intros Hw. destruct op; cbn [exec installs] in *.
  - apply keeps_installLang, Hw, list_elem_of_here.
  - destruct (getInstalledLangs_returns ctx config w)
      as (installedLangs & w0 & Hl).
    rewrite Hl in Hw.
    rewrite (installNecessaryLangs_eq _ _ _ _ _ _ _ Hl). cbv zeta. simpl.
    pose proof (begin_all_spec ctx config (missing_of installedLangs langs) w0)
      as (Hb1 & Hb2 & _).
    pose proof (keeps_getInstalledLangs w) as Hk. rewrite Hl in Hk.
    eapply R_trans; [exact Hk|]. simpl. rewrite <- Hb2.
    apply run_schedule_keeps. simpl. by rewrite Hb1.
  - apply keeps_getInstalledLangs.
  - apply keeps_createWorker.
  - apply keeps_command_lang_list.
  - apply keeps_command_lang_install, Hw, list_elem_of_here.
  - apply keeps_command_recognize.
Qed.

End Frame.

(** ** The claims on installs and on what they leave in place *)

Section InstallClaims.

Variable ctx : Context.
Variable config : Config.

Local Abbreviation root := (service_langPath ctx config).

(** An operation keeps every entry that none of its installs is piped to. *)
Lemma exec_kept op w (p : path) :
  p ∉ destinations ctx config op w →
  kept (fs w !! p) (fs (exec ctx config op w) !! p).
Proof.
  intros Hdest.
  apply (exec_keeps ctx config p kept (fun target => target ≠ p)).
  - by intros x n.
  - intros x y z Hxy Hyz n Hn. by apply Hyz, Hxy.
  - by intros n.
  - by intros old body Hne.
  - intros L HL <-. apply Hdest. unfold destinations.
    apply list_elem_of_fmap. by exists L.
Qed.

(** An operation leaves every file a file. *)
Lemma exec_still_file op w (p : path) :
  still_file (fs w !! p) (fs (exec ctx config op w) !! p).
Proof.
  apply (exec_keeps ctx config p still_file (fun _ => True)).
  - intros x c Hc. eauto.
  - intros x y z Hxy Hyz c Hc. destruct (Hxy c Hc) as [c' Hc']. eauto.
  - by intros c.
  - intros old body _ c _. eauto.
  - done.
Qed.

(** C8, amended: no operation of the system deletes an existing file or
    makes anything else of it, and an operation leaves its content as it is
    unless the file is the destination of an install that the operation
    makes (an [installLang], the install command, or an install of
    [installNecessaryLangs] for a code it finds missing); a successful
    [installLang], also that of the install command, leaves the body it has
    downloaded in its destination, whatever was there. *)
Theorem existing_asset_kept op w (p : path) c :
  fs w !! p = Some (File c) →
  (∃ c', fs (exec ctx config op w) !! p = Some (File c')) ∧
  (p ∉ destinations ctx config op w →
   fs (exec ctx config op w) !! p = Some (File c)) ∧
  (∀ lang resp,
     op = OpInstallLang lang ∨ op = OpCommandLangInstall lang →
     p = on_disk ctx (gzipFilePath ctx config lang) →
     http_answer ctx (length (requests w)) (download_request config lang)
       = Some resp →
     (installLang ctx config lang w).1 = Return tt →
     fs (exec ctx config op w) !! p
       = Some (File (Buffer_concat (chunks resp)))).
Proof.
  intros Hp. split; [|split].
  - by apply (exec_still_file op w p c).
  - intros Hdest. by apply (exec_kept op w p Hdest).
  - intros lang resp Hop -> Hresp Hrun.
    destruct (installLang ctx config lang w) as [r w1] eqn:E.
    simpl in Hrun. subst r.
    destruct (installLang_returns ctx config _ _ _ E)
      as (resp' & fs1 & Hresp' & _ & _ & _ & _ & Hfs).
    assert (resp' = resp) as -> by congruence.
    assert (fs w1 !! on_disk ctx (gzipFilePath ctx config lang)
            = Some (File (Buffer_concat (chunks resp)))) as Hw1.
    { rewrite Hfs. apply lookup_insert_eq. }
    destruct Hop as [-> | ->]; cbn [exec].
    + by rewrite E.
    + unfold command_lang_install, bind, try_catch. rewrite E.
      destruct (getInstalledLangs_returns ctx config w1) as (langs & w2 & Hl).
      pose proof (keeps_getInstalledLangs ctx config
                    (on_disk ctx (gzipFilePath ctx config lang)) kept) as Hk.
      rewrite Hl. simpl.
      specialize (Hk (fun x n H => H)
                     (fun x y z Hxy Hyz n Hn => Hyz n (Hxy n Hn))
                     (fun n H => match H with end) w1 _ Hw1).
      by rewrite Hl in Hk.
Qed.

End InstallClaims.

(** C5: with [eng] installed and listed, [installNecessaryLangs] given the
    code [./eng] does not find it in the listing, installs it, and the
    download replaces the asset of [eng]. *)
Lemma installNecessaryLangs_overwrites_installed :
  (getInstalledLangs sample_ctx default_config eng_world).1 = Return ["eng"] ∧
  fs eng_world !! ("eng.traineddata.gz" :: sample_root) = Some (File body_B) ∧
  requests (installNecessaryLangs sample_ctx default_config ["./eng"] [0; 0; 0]
              eng_world).2
    = [download_request default_config "./eng"] ∧
  (installNecessaryLangs sample_ctx default_config ["./eng"] [0; 0; 0]
     eng_world).1.2 = Fulfilled tt ∧
  fs (installNecessaryLangs sample_ctx default_config ["./eng"] [0; 0; 0]
        eng_world).2
    !! ("eng.traineddata.gz" :: sample_root) = Some (File body_A).
Proof. repeat split; reflexivity. Qed.

(** C8, as stated, fails: a second [installLang] of the same code replaces
    the content the first one has written. *)
Lemma second_install_overwrites :
  (installLang sample_ctx default_config "eng" empty_world).1 = Return tt ∧
  fs (exec sample_ctx default_config (OpInstallLang "eng") empty_world)
    !! ("eng.traineddata.gz" :: sample_root) = Some (File body_A) ∧
  fs (exec sample_ctx default_config (OpInstallLang "eng")
        (exec sample_ctx default_config (OpInstallLang "eng") empty_world))
    !! ("eng.traineddata.gz" :: sample_root) = Some (File body_B) ∧
  body_A ≠ body_B.
Proof. repeat split; try reflexivity. discriminate. Qed.

(** The install of [fra] leaves the asset of [eng] alone, and an install
    of [eng] puts its download in the place of the asset. *)
Lemma existing_asset_kept_witness :
  fs eng_world !! ("eng.traineddata.gz" :: sample_root) = Some (File body_B) ∧
  (("eng.traineddata.gz" :: sample_root)
     ∉ destinations sample_ctx default_config (OpInstallLang "fra") eng_world) ∧
  fs (exec sample_ctx default_config (OpInstallLang "fra") eng_world)
    !! ("eng.traineddata.gz" :: sample_root) = Some (File body_B) ∧
  fs (exec sample_ctx default_config (OpInstallLang "eng") eng_world)
    !! ("eng.traineddata.gz" :: sample_root) = Some (File body_A).
Proof.
  assert (fs eng_world !! ("eng.traineddata.gz" :: sample_root)
          = Some (File body_B)) as Hp by reflexivity.
  assert (("eng.traineddata.gz" :: sample_root)
          ∉ destinations sample_ctx default_config (OpInstallLang "fra") eng_world)
    as Hdest.
  { intros H. apply list_elem_of_singleton in H. discriminate H. }
  split; [exact Hp|]. split; [exact Hdest|]. split.
  - exact (proj1 (proj2 (existing_asset_kept sample_ctx default_config
                           (OpInstallLang "fra") eng_world _ body_B Hp)) Hdest).
  - exact (proj2 (proj2 (existing_asset_kept sample_ctx default_config
                           (OpInstallLang "eng") eng_world _ body_B Hp))
             "eng" (mkStream [body_A] Closes None) (or_introl eq_refl)
             eq_refl eq_refl eq_refl).
Defined.

(** ** Recognition without languages *)

Section RecognizeClaims.

Variable ctx : Context.
Variable config : Config.

Local Abbreviation root := (service_langPath ctx config).
Local Abbreviation defaults :=
  ({[ "langPath" := VString (to_string root) ]} : JsObject).

(** [createWorker] with no code goes to the engine, whatever the listing
    gives. *)
Lemma createWorker_nil options w :
  ∃ installedLangs w1,
    getInstalledLangs ctx config w = (Return installedLangs, w1) ∧
    createWorker ctx config [] options w =
    Tesseract_createWorker ctx [] 1 (default ∅ options ∪ defaults) w1.
Proof.
  destruct (getInstalledLangs_returns ctx config w) as (installedLangs & w1 & Hl).
  exists installedLangs, w1. split; [done|].
  by rewrite (createWorker_cases _ _ _ _ _ _ _ Hl).
Qed.

Lemma streamToBuffer_closes stream :
  closes stream = true →
  streamToBuffer stream = ret (Buffer_concat (chunks stream)).
Proof. unfold closes, streamToBuffer. by destruct (ending stream). Qed.

(** A stream that does not close gives no buffer. *)
Lemma streamToBuffer_fails stream w :
  closes stream = false →
  streamToBuffer stream w = (Throw StreamError, w) ∨
  streamToBuffer stream w = (Never, w).
Proof.
  unfold closes, streamToBuffer.
  destruct (ending stream); [done|by left|by right].
Qed.

(** The recognize command from the request for a worker on. *)
Local Abbreviation recognition langs buffer opt_json :=
  (let* worker := Tesseract_createWorker ctx langs 1 (∅ ∪ defaults) in
   let* text := worker_recognize ctx worker buffer in
   worker_terminate worker ;;
   (if opt_json then logger Info "识别结果 JSON: %o" None else ret tt) ;;
   ret ("识别结果：" +:+ text))%async.

(** What the recognition does, by the answer of the engine. *)
Lemma recognition_cases langs buffer (opt_json : bool) w :
  let k := mkWorker (length (workers w)) langs 1 (∅ ∪ defaults) in
  let w1 := add_worker k (add_asked k w) in
  let w2 := add_terminated (w_id k) w1 in
  recognition langs buffer opt_json w =
  match engine_create ctx w k with
  | Builds =>
      match engine_recognize ctx k buffer with
      | Some text =>
          (Return ("识别结果：" +:+ text),
           if opt_json then add_log (mkLog Info "识别结果 JSON: %o" None) w2
           else w2)
      | None => (Throw EngineError, w1)
      end
  | Rejects => (Throw EngineError, add_asked k w)
  | Silent => (Never, add_asked k w)
  end.
Proof.
  intros k w1 w2. unfold bind at 1. rewrite Tesseract_createWorker_cases.
  cbv zeta. fold k. destruct (engine_create ctx w k); [|done..].
  unfold bind at 1, worker_recognize.
  destruct (engine_recognize ctx k buffer) as [text|]; [|done].
  unfold ret at 1, bind at 1, worker_terminate, bind at 1.
  by destruct opt_json.
Qed.

(** The recognize command without the option [-l] when nothing is listed,
    from the download of the image on. *)
Lemma command_recognize_nothing_listed elements imgEl opt_json stream w :
  List.find (fun el => String.eqb (el_type el) "img") elements = Some imgEl →
  http_answer ctx (length (requests w))
    (mkRequest (el_src imgEl) "stream" None) = Some stream →
  closes stream = true →
  (getInstalledLangs ctx config w).1 = Return [] →
  ∃ w3, asked w3 = asked w ∧ workers w3 = workers w ∧
    command_recognize ctx config elements None opt_json w =
    recognition [] (Buffer_concat (chunks stream)) opt_json w3.
Proof.
  intros Hfind Hans Hcl Hnone.
  remember (command_recognize ctx config elements None opt_json w) as res eqn:E.
  unfold command_recognize in E. rewrite Hfind in E.
  unfold bind at 1 in E. unfold http_get, http_request in E. rewrite Hans in E.
  unfold bind at 1 in E. rewrite (streamToBuffer_closes _ Hcl) in E.
  unfold ret at 1 in E. unfold bind at 1 in E. unfold session_send in E.
  set (w2 := add_sent _ (add_request _ w)) in E.
  unfold bind at 1 in E. unfold recognize_langs, bind at 1 in E.
  destruct (getInstalledLangs_same_fs ctx config w2 w eq_refl eq_refl)
    as [Hres _].
  rewrite Hnone in Hres.
  destruct (getInstalledLangs ctx config w2) as [r w3] eqn:E3.
  simpl in Hres. subst r.
  destruct (getInstalledLangs_frame ctx config _ _ _ E3)
    as (_ & _ & Ha3 & Hw3 & _).
  unfold ret at 1 in E. change (Js.array_slice [] 0 1) with (@nil string) in E.
  destruct (createWorker_nil None w3) as (installedLangs & w4 & Hl & Hk).
  destruct (getInstalledLangs_frame ctx config _ _ _ Hl)
    as (_ & _ & Ha4 & Hw4 & _).
  exists w4. split; [by rewrite Ha4, Ha3|]. split; [by rewrite Hw4, Hw3|].
  subst res. unfold bind at 1. rewrite Hk. reflexivity.
Qed.

(** C9, amended: [createWorker] called with no language code never throws
    the missing-assets error and always asks the engine for a worker for the
    empty list, whatever is installed; what the engine answers is what
    [createWorker] gives, so the worker is constructed and returned when the
    engine builds it.  Consequently the recognize command without the option
    [-l], run when no language is listed, never fails with a session error;
    and on a message with an image that is downloaded it asks the engine for
    a worker for the empty list of languages, which is constructed when the
    engine builds it. *)
Theorem createWorker_no_langs :
  (∀ options w,
     (∀ msg, (createWorker ctx config [] options w).1 ≠ Throw (SessionError msg)) ∧
     ∃ k w1,
       w_langs k = [] ∧
       asked (createWorker ctx config [] options w).2 = asked w ++ [k] ∧
       match engine_create ctx w1 k with
       | Builds =>
           (createWorker ctx config [] options w).1 = Return k ∧
           workers (createWorker ctx config [] options w).2 = workers w ++ [k]
       | Rejects =>
           (createWorker ctx config [] options w).1 = Throw EngineError ∧
           workers (createWorker ctx config [] options w).2 = workers w
       | Silent =>
           (createWorker ctx config [] options w).1 = Never ∧
           workers (createWorker ctx config [] options w).2 = workers w
       end) ∧
  (∀ elements opt_json w,
     (getInstalledLangs ctx config w).1 = Return [] →
     (∀ msg, (command_recognize ctx config elements None opt_json w).1
             ≠ Throw (SessionError msg)) ∧
     ∀ imgEl stream,
       List.find (fun el => String.eqb (el_type el) "img") elements = Some imgEl →
       http_answer ctx (length (requests w))
         (mkRequest (el_src imgEl) "stream" None) = Some stream →
       closes stream = true →
       ∃ k w1,
         w_langs k = [] ∧
         asked (command_recognize ctx config elements None opt_json w).2
           = asked w ++ [k] ∧
         match engine_create ctx w1 k with
         | Builds =>
             workers (command_recognize ctx config elements None opt_json w).2
               = workers w ++ [k]
         | Rejects =>
             (command_recognize ctx config elements None opt_json w).1
               = Throw EngineError ∧
             workers (command_recognize ctx config elements None opt_json w).2
               = workers w
         | Silent =>
             (command_recognize ctx config elements None opt_json w).1 = Never ∧
             workers (command_recognize ctx config elements None opt_json w).2
               = workers w
         end).
Proof.
  split.
  - intros options w.
    destruct (createWorker_nil options w) as (installedLangs & w1 & Hl & ->).
    destruct (getInstalledLangs_frame ctx config _ _ _ Hl)
      as (_ & _ & Ha & Hw & _).
    rewrite Tesseract_createWorker_cases. cbv zeta. split.
    + intros msg. by destruct (engine_create ctx w1 _).
    + exists (mkWorker (length (workers w1)) [] 1 (default ∅ options ∪ defaults)),
        w1.
      split; [reflexivity|].
      destruct (engine_create ctx w1 _); simpl; by rewrite Ha, Hw.
  - intros elements opt_json w Hnone. split.
    + intros msg.
      destruct (List.find (fun el => String.eqb (el_type el) "img") elements)
        as [imgEl|] eqn:Hfind;
        [|by unfold command_recognize; rewrite Hfind].
      destruct (http_answer ctx (length (requests w))
                  (mkRequest (el_src imgEl) "stream" None))
        as [stream|] eqn:Hans;
        [|by unfold command_recognize, bind, http_get, http_request;
             rewrite Hfind, Hans].
      destruct (closes stream) eqn:Hcl.
      2: { unfold command_recognize. rewrite Hfind.
           unfold bind at 1, http_get, http_request. rewrite Hans.
           unfold bind at 1.
           by destruct (streamToBuffer_fails stream
                          (add_request (mkRequest (el_src imgEl) "stream" None) w)
                          Hcl) as [-> | ->]. }
      destruct (command_recognize_nothing_listed elements imgEl opt_json
                  stream w Hfind Hans Hcl Hnone) as (w3 & _ & _ & ->).
      rewrite recognition_cases. cbv zeta.
      destruct (engine_create ctx w3 _); [|done..].
      by destruct (engine_recognize ctx _ _).
    + intros imgEl stream Hfind Hans Hcl.
      destruct (command_recognize_nothing_listed elements imgEl opt_json
                  stream w Hfind Hans Hcl Hnone) as (w3 & Ha & Hw & ->).
      rewrite recognition_cases. cbv zeta.
      exists (mkWorker (length (workers w3)) [] 1 (∅ ∪ defaults)), w3.
      split; [reflexivity|].
      destruct (engine_create ctx w3 _); [|simpl; by rewrite Ha, Hw..].
      destruct (engine_recognize ctx _ _) as [text|];
        [destruct opt_json|]; simpl; by rewrite Ha, Hw.
Qed.

End RecognizeClaims.

(** C9, as stated, fails: on a host whose engine cannot load, [createWorker]
    called with no code throws the engine's error and no worker is
    constructed, and so does the recognize command without the option [-l]
    when nothing is installed. *)
Lemma createWorker_no_langs_engine_rejects :
  ((createWorker broken_ctx default_config [] None empty_world).1
     = Throw EngineError ∧
   workers (createWorker broken_ctx default_config [] None empty_world).2 = []) ∧
  ((getInstalledLangs broken_ctx default_config empty_world).1 = Return [] ∧
   (command_recognize broken_ctx default_config
      [mkElement "img" "http://x/i.png"] None false empty_world).1
     = Throw EngineError ∧
   workers (command_recognize broken_ctx default_config
              [mkElement "img" "http://x/i.png"] None false empty_world).2 = []).
Proof. repeat split; reflexivity. Qed.

(** The recognize command on an image, with nothing installed. *)
Lemma createWorker_no_langs_witness :
  List.find (fun el => String.eqb (el_type el) "img") [mkElement "img" "http://x/i.png"]
    = Some (mkElement "img" "http://x/i.png") ∧
  (getInstalledLangs sample_ctx default_config empty_world).1 = Return [] ∧
  ∃ k,
    workers (command_recognize sample_ctx default_config
               [mkElement "img" "http://x/i.png"] None false empty_world).2
      = [k] ∧
    w_langs k = [].
Proof.
  split; [reflexivity|].
  assert ((getInstalledLangs sample_ctx default_config empty_world).1 = Return [])
    as Hnone by reflexivity.
  split; [exact Hnone|].
  destruct (proj2 (proj2 (createWorker_no_langs sample_ctx default_config)
              [mkElement "img" "http://x/i.png"] false empty_world Hnone)
              (mkElement "img" "http://x/i.png") (mkStream [body_A] Closes None)
              eq_refl eq_refl eq_refl) as (k & w1 & Hl & _ & Hw).
  exists k. split; [exact Hw|exact Hl].
Defined.

(** * Further properties of the service *)

(** ** The request and the file of an install *)

Section InstallerParts.

Variable ctx : Context.
Variable config : Config.

Local Abbreviation root := (service_langPath ctx config).
Local Abbreviation droot := (on_disk ctx (service_langPath ctx config)).

(** X1: for a code that contains none of the replacement patterns [$$],
    [$&], [$`] and [$'], [installLang] requests the URL got from the
    template by replacing every [{lang}] by the code and then every [{file}]
    by the name of the asset file, as plain text; it issues this one request
    whatever happens afterwards. *)
Theorem installLang_requests_url lang w :
  Js.has_pattern lang = false →
  requests (installLang ctx config lang w).2 =
    requests w ++
    [mkRequest (spec_url config lang) "stream" (Some (downloadTimeout config))].
Proof.
  intros H. rewrite installLang_requests. unfold download_request.
  by rewrite download_url_plain.
Qed.


(** X3: under every schedule of its installs, [installNecessaryLangs] calls
    [installLang] on the codes of [langs] that the listing at call time does
    not contain, on each occurrence of them, in their order, and on no other
    code, and issues one download request for each call and no other
    request. *)
Theorem installNecessaryLangs_requests langs sched w :
  ∃ installedLangs w0,
    getInstalledLangs ctx config w = (Return installedLangs, w0) ∧
    (∀ L, L ∈ missing_of installedLangs langs ↔ L ∈ langs ∧ L ∉ installedLangs) ∧
    task_lang <$> pool_tasks (installNecessaryLangs ctx config langs sched w).1.1
      = missing_of installedLangs langs ∧
    requests (installNecessaryLangs ctx config langs sched w).2
      = requests w ++
        (download_request config <$> missing_of installedLangs langs).
Proof.
  destruct (getInstalledLangs_returns ctx config w) as (installedLangs & w0 & Hl).
  exists installedLangs, w0. split; [done|].
  split; [intros L; apply elem_of_missing_of|].
  rewrite (installNecessaryLangs_eq _ _ _ _ _ _ _ Hl). cbv zeta. simpl.
  set (missing := missing_of installedLangs langs).
  pose proof (begin_all_spec ctx config missing w0) as (Hb1 & _ & _ & Hb3).
  pose proof (run_schedule_spec ctx config sched
                (mkPool (begin_all ctx config missing w0).1 None)
                (begin_all ctx config missing w0).2) as [Hr1 Hr2].
  simpl in Hr1. rewrite Hr1, Hr2, Hb1, Hb3.
  by destruct (getInstalledLangs_frame ctx config _ _ _ Hl) as (_ & -> & _).
Qed.

End InstallerParts.

(** ** The asset root and the listing *)

Section AssetRootFacts.

Variable ctx : Context.
Variable config : Config.

Local Abbreviation root := (service_langPath ctx config).
Local Abbreviation droot := (on_disk ctx (service_langPath ctx config)).

(** A second listing sees what the first one saw. *)
Lemma listing_again w langs w1 :
  getInstalledLangs ctx config w = (Return langs, w1) →
  (getInstalledLangs ctx config w1).1 = Return langs ∧
  fs (getInstalledLangs ctx config w1).2 = fs w1.
Proof.
  intros H. pose proof H as H'. rewrite getInstalledLangs_cases in H'.
  destruct (mkdir_recursive (faults w) droot (fs w)) as [fs'|] eqn:Hmk.
  - assert (mkdir_recursive (faults w) droot fs' = Some fs') as Hmk'.
    { unfold mkdir_recursive in *. case_bool_decide; [done|].
      apply mkdir_tree_existing. intros q Hq. by eapply mkdir_tree_is_dir. }
    assert (faults w1 = faults w ∧ fs w1 = fs') as [Hfl Hfs].
    { destruct (readdir _ _ _); by simplify_eq. }
    rewrite getInstalledLangs_cases, Hfl, Hfs, Hmk'.
    destruct (readdir (faults w) droot fs'); by simplify_eq.
  - simplify_eq.
    destruct (getInstalledLangs_same_fs ctx config
                (add_log (mkLog Error "刷新语言列表时出错: %o"
                            (Some (IOError "mkdir" root))) w) w eq_refl eq_refl)
      as [H1 H2].
    rewrite H1, H2, H. done.
Qed.

(** X4: listing twice in a row gives the same codes, and the second listing
    changes nothing in the filesystem; when the first listing could create
    the asset root, the root is a directory afterwards. *)
Theorem getInstalledLangs_twice w :
  (getInstalledLangs ctx config (getInstalledLangs ctx config w).2).1
    = (getInstalledLangs ctx config w).1 ∧
  fs (getInstalledLangs ctx config (getInstalledLangs ctx config w).2).2
    = fs (getInstalledLangs ctx config w).2 ∧
  (is_Some (mkdir_recursive (faults w) droot (fs w)) →
   is_dir (fs (getInstalledLangs ctx config w).2) droot = true).
Proof.
  destruct (getInstalledLangs_returns ctx config w) as (langs & w1 & H).
  destruct (listing_again _ _ _ H) as [H1 H2].
  rewrite H. simpl. split; [done|]. split; [done|].
  intros [fs' Hmk]. rewrite getInstalledLangs_cases, Hmk in H.
  assert (fs w1 = fs') as -> by (destruct (readdir _ _ _); by simplify_eq).
  unfold mkdir_recursive in Hmk. case_bool_decide; [done|].
  by eapply mkdir_tree_is_dir.
Qed.

(** X5: a code without a slash has its asset file directly in the asset
    root; two such codes have the same path only when they are the same
    code, and they are stored in the same file exactly when the file system
    stores their file names under the same name. *)
Theorem plain_codes_and_their_files l1 l2 :
  Js.contains "/" l1 = false →
  Js.contains "/" l2 = false →
  gzipFilePath ctx config l1 = (l1 +:+ ".traineddata.gz") :: root ∧
  (gzipFilePath ctx config l1 = gzipFilePath ctx config l2 → l1 = l2) ∧
  (on_disk ctx (gzipFilePath ctx config l1)
     = on_disk ctx (gzipFilePath ctx config l2)
   ↔ fs_name ctx (l1 +:+ ".traineddata.gz")
     = fs_name ctx (l2 +:+ ".traineddata.gz")).
Proof.
  intros H1 H2. rewrite !gzipFilePath_plain by done. split; [done|]. split.
  - intros Heq. injection Heq as Heq. by apply gzipFileName_inj.
  - unfold on_disk. rewrite !fmap_cons. split.
    + intros Heq. injection Heq as Heq. exact Heq.
    + intros Heq. f_equal. exact Heq.
Qed.

(** X6: when the working directory of the process is a resolved path, so
    is the asset root, and resolving the string of the asset root gives the
    asset root back, from wherever it is resolved. *)
Theorem langPath_round_trip (anywhere : path) :
  resolved (cwd ctx) →
  resolved root ∧ resolve anywhere [to_string root] = root.
Proof.
  intros Hcwd.
  assert (resolved root) as Hr by by apply resolve_is_resolved.
  split; [done|]. unfold resolve. simpl. by apply resolve_arg_to_string.
Qed.

End AssetRootFacts.

(** An absolute argument of [path.resolve] forgets what comes before. *)
Lemma resolve_arg_absolute (cur : path) arg :
  Js.startsWith arg "/" = true →
  resolve_arg cur arg = walk [] (Js.split "/" arg).
Proof.
  intros Habs. unfold resolve_arg. rewrite Habs.
  destruct (String.eqb arg EmptyString) eqn:E; [|done].
  apply String.eqb_eq in E. by rewrite E in Habs.
Qed.

(** X7: an absolute configured [langPath] is the asset root whatever the
    base directory and the working directory are; a relative one under an
    absolute base directory does not depend on the working directory. *)
Theorem langPath_absolute ctx1 ctx2 config :
  (Js.startsWith (langPath config) "/" = true →
   service_langPath ctx1 config = service_langPath ctx2 config) ∧
  (Js.startsWith (baseDir ctx1) "/" = true → baseDir ctx1 = baseDir ctx2 →
   service_langPath ctx1 config = service_langPath ctx2 config).
Proof.
  unfold service_langPath, resolve. cbn [foldl]. split.
  - intros Habs. by rewrite !(resolve_arg_absolute _ (langPath config)).
  - intros Habs <-. by rewrite !(resolve_arg_absolute _ (baseDir ctx1)).
Qed.

(** ** The installer: failures and accounting *)

Section InstallerFacts.

Variable ctx : Context.
Variable config : Config.

Local Abbreviation root := (service_langPath ctx config).
Local Abbreviation droot := (on_disk ctx (service_langPath ctx config)).
Local Abbreviation download_request := (download_request config).

(** A listing that does not fail contains the code whose asset file has
    just been written into the asset root, when the file system reports the
    name of the file as it was given. *)
Lemma listed_after_write (lang : string) (fs1 : Fs) (wf : World) c :
  (∀ q, q `suffix_of` droot → is_dir fs1 q = true) →
  droot ∉ mkdir_denied (faults wf) →
  droot ∉ readdir_denied (faults wf) →
  listed_name ctx (fs_name ctx (gzipFileName lang)) = gzipFileName lang →
  fs wf = <[fs_name ctx (gzipFileName lang) :: droot := File c]> fs1 →
  ∃ langs w', getInstalledLangs ctx config wf = (Return langs, w') ∧
              lang ∈ langs.
Proof.
  intros Hdirs Hmk Hrd Hname Hfs.
  set (fs2 := <[fs_name ctx (gzipFileName lang) :: droot := File c]> fs1) in *.
  assert (mkdir_tree droot fs2 = Some fs2) as Hmk2.
  { apply mkdir_tree_existing. intros q Hq. unfold fs2.
    rewrite is_dir_insert_ne; [by apply Hdirs|].
    intros <-. by apply suffix_cons_not in Hq. }
  rewrite getInstalledLangs_cases, Hfs. unfold mkdir_recursive, readdir.
  rewrite bool_decide_eq_false_2, Hmk2 by done.
  rewrite bool_decide_eq_false_2 by done.
  rewrite (mkdir_tree_is_dir _ _ _ droot Hmk2) by done.
  eexists _, _. split; [reflexivity|].
  apply elem_of_installed, list_elem_of_fmap.
  exists (fs_name ctx (gzipFileName lang)). split; [by rewrite Hname|].
  apply elem_of_entries. unfold fs2. rewrite lookup_insert_eq. eauto.
Qed.

(** X8: when the response stream of a code without a slash fails after the
    asset file has been opened, [installLang] throws, what the pipe had
    written stays in the asset file, and a listing that does not fail reports
    the code as installed (the file system reporting the name of the file as
    it was given). *)
Theorem partial_download_is_listed lang w resp body fs1 :
  Js.contains "/" lang = false →
  listed_name ctx (fs_name ctx (lang +:+ ".traineddata.gz"))
    = lang +:+ ".traineddata.gz" →
  http_answer ctx (length (requests w)) (download_request lang) = Some resp →
  ending resp = Fails →
  left_behind resp = Some body →
  mkdir_recursive (faults w) droot (fs w) = Some fs1 →
  can_open (faults w) (fs_name ctx (lang +:+ ".traineddata.gz") :: droot) fs1
    = true →
  droot ∉ readdir_denied (faults w) →
  (installLang ctx config lang w).1 = Throw StreamError ∧
  fs (installLang ctx config lang w).2
    !! (fs_name ctx (lang +:+ ".traineddata.gz") :: droot)
    = Some (File body) ∧
  ∃ langs,
    (getInstalledLangs ctx config (installLang ctx config lang w).2).1
      = Return langs ∧
    lang ∈ langs.
Proof.
  intros Hplain Hname Hans Hcl Hleft Hmk Hopen Hrd.
  rewrite installLang_cases, Hans, Hmk, (gzipFilePath_plain _ _ _ Hplain).
  cbv zeta. rewrite Hcl, Hleft.
  change (on_disk ctx (gzipFileName lang :: root))
    with (fs_name ctx (gzipFileName lang) :: droot).
  fold (gzipFileName lang) in Hopen. rewrite Hopen. simpl.
  split; [done|]. split; [by rewrite lookup_insert_eq|].
  unfold mkdir_recursive in Hmk. case_bool_decide as Hden; [done|].
  match goal with |- context [getInstalledLangs _ _ ?x] =>
    destruct (listed_after_write lang fs1 x body) as (langs & w' & Hl & Hin)
  end; try done.
  - intros q Hq. by eapply mkdir_tree_is_dir.
  - exists langs. by rewrite Hl.
Qed.

(** X9: whatever its outcome, [installLang] issues exactly one request and
    logs its download message; it logs its success message exactly when it
    returns; and it is never settled only when the response is a stream that
    stalls. *)
Theorem installLang_accounting lang w :
  requests (installLang ctx config lang w).2
    = requests w ++ [download_request lang] ∧
  logs (installLang ctx config lang w).2
    = logs w ++
      mkLog Info (download_message ctx config lang) None ::
      match (installLang ctx config lang w).1 with
      | Return _ => [mkLog Info "安装成功" None]
      | _ => []
      end ∧
  ((installLang ctx config lang w).1 = Never →
   ∃ resp, http_answer ctx (length (requests w)) (download_request lang)
             = Some resp ∧
           ending resp = Stalls).
Proof.
  rewrite installLang_cases.
  destruct (http_answer ctx _ _) as [resp|]; [|done].
  destruct (mkdir_recursive _ _ _) as [fs1|]; [|done]. cbv zeta.
  destruct (ending resp) eqn:Hend.
  - destruct (can_open _ _ _); [|done]. simpl.
    by rewrite <- (assoc_L (++)).
  - destruct (left_behind resp); [|done]. by destruct (can_open _ _ _).
  - destruct (can_open _ _ _); [|done]. simpl. eauto.
Qed.


End InstallerFacts.

(** ** File names on a Node host *)

Section NodeNames.

Lemma ascii_not_above (lo hi : N) c :
  (127 < lo)%N → byte_in 0 127 c = true → byte_in lo hi c = false.
Proof.
  unfold byte_in. intros Hlo [_ H]%andb_prop. apply N.leb_le in H.
  apply andb_false_intro1, N.leb_gt. lia.
Qed.

Lemma lone_surrogate_ascii c s :
  byte_in 0 127 c = true → lone_surrogate (String c s) = false.
Proof.
  intros Hc. simpl. destruct s as [|b [|d s]]; try done.
  by rewrite (ascii_not_above 237 237 c).
Qed.

(** ASCII names are given to the file system as they are. *)
Lemma utf8_of_ascii s : ascii_only s = true → utf8_of_string s = s.
Proof.
  unfold utf8_of_string. induction s as [|c s IH]; [done|].
  simpl ascii_only. intros [Hc Hs]%andb_prop.
  cbn [utf8_go]. rewrite (lone_surrogate_ascii _ _ Hc). by rewrite (IH Hs).
Qed.

(** ASCII names are reported as they are stored. *)
Lemma ascii_of_utf8 s : ascii_only s = true → string_of_utf8 s = s.
Proof.
  unfold string_of_utf8. induction s as [|c s IH]; [done|].
  simpl ascii_only. intros [Hc Hs]%andb_prop.
  cbn [decode_go needed idle]. unfold decode_first. rewrite Hc.
  cbn [fst snd]. by rewrite (IH Hs).
Qed.

Lemma ascii_only_app s t :
  ascii_only (s +:+ t) = ascii_only s && ascii_only t.
Proof.
  induction s as [|c s IH]; [done|].
  rewrite string_app_cons. simpl. by rewrite IH, andb_assoc.
Qed.

Variable ctx : Context.
Variable config : Config.

Local Abbreviation droot := (on_disk ctx (service_langPath ctx config)).

(** X11: on a Node host, whose file names go to the file system and come
    back as UTF-8, the asset file of a code made of ASCII characters comes
    back under its name; so, when the code has no slash, a successful
    [installLang] followed by a listing that does not fail gives a listing
    with the code. *)
Theorem ascii_code_is_listed lang w :
  fs_name ctx = utf8_of_string →
  listed_name ctx = string_of_utf8 →
  ascii_only lang = true →
  Js.contains "/" lang = false →
  (installLang ctx config lang w).1 = Return tt →
  droot ∉ readdir_denied (faults w) →
  listed_name ctx (fs_name ctx (lang +:+ ".traineddata.gz"))
    = lang +:+ ".traineddata.gz" ∧
  ∃ langs,
    (getInstalledLangs ctx config (installLang ctx config lang w).2).1
      = Return langs ∧
    lang ∈ langs.
Proof.
  intros Hto Hfrom Hascii Hslash Hrun Hread.
  assert (listed_name ctx (fs_name ctx (gzipFileName lang)) = gzipFileName lang)
    as Hname.
  { assert (ascii_only (gzipFileName lang) = true) as Hfile.
    { unfold gzipFileName. by rewrite ascii_only_app, Hascii. }
    by rewrite Hto, Hfrom, (utf8_of_ascii _ Hfile), (ascii_of_utf8 _ Hfile). }
  split; [exact Hname|].
  destruct (installLang ctx config lang w) as [r w'] eqn:E.
  simpl in Hrun. subst r. simpl.
  apply installLang_returns in E
    as (resp & fs1 & _ & _ & Hmk & _ & Hfl & Hfs).
  rewrite (gzipFilePath_plain _ _ _ Hslash) in Hfs.
  unfold mkdir_recursive in Hmk. case_bool_decide as Hden; [done|].
  destruct (listed_after_write ctx config lang fs1 w'
              (Buffer_concat (chunks resp))) as (langs & w'' & Hl & Hin);
    try done.
  - intros q Hq. by eapply mkdir_tree_is_dir.
  - by rewrite Hfl.
  - by rewrite Hfl.
  - exists langs. by rewrite Hl.
Qed.

End NodeNames.

(** ** The download URL of the default template *)

Section DefaultUrl.

(** Text without an opening brace is passed as it is. *)
Lemma substitute_go_pass pat' by_ a rest :
  Js.contains "{" a = false →
  substitute_go (String "{" pat') by_ (a +:+ rest) 0
  = a +:+ substitute_go (String "{" pat') by_ rest 0.
Proof.
  intros Ha. induction a as [|c a IH]; [done|].
  simpl in Ha. apply orb_false_elim in Ha as [Hc Ha].
  change (String c a +:+ rest) with (String c (a +:+ rest)).
  cbn [substitute_go Js.startsWith]. rewrite Ascii.eqb_sym, Hc. simpl.
  by rewrite (IH Ha).
Qed.

Lemma substitute_go_skip pat by_ x rest :
  substitute_go pat by_ (x +:+ rest) (String.length x)
  = substitute_go pat by_ rest 0.
Proof. induction x as [|c x IH]; [by destruct rest|]. exact IH. Qed.

Lemma startsWith_app pat rest : Js.startsWith (pat +:+ rest) pat = true.
Proof.
  induction pat as [|c pat IH]; [done|].
  change (String c pat +:+ rest) with (String c (pat +:+ rest)).
  simpl. by rewrite Ascii.eqb_refl, IH.
Qed.

(** An occurrence of the pattern is replaced. *)
Lemma substitute_go_match c pat' by_ rest :
  substitute_go (String c pat') by_ (String c pat' +:+ rest) 0
  = by_ +:+ substitute_go (String c pat') by_ rest 0.
Proof.
  change (String c pat' +:+ rest) with (String c (pat' +:+ rest)).
  cbn [substitute_go].
  change (String c (pat' +:+ rest)) with (String c pat' +:+ rest).
  rewrite startsWith_app. f_equal.
  replace (String.length (String c pat') - 1) with (String.length pat')
    by (simpl; lia).
  apply substitute_go_skip.
Qed.

(** X12: with the default download source, the URL requested for a code
    that contains no opening brace and none of the replacement patterns is
    the source's address with the code as package name and the asset file as
    file name. *)
Theorem default_download_url lang :
  Js.contains "{" lang = false →
  Js.has_pattern lang = false →
  download_url default_config lang
  = "https://unpkg.com/@tesseract.js-data/" +:+ lang +:+ "/4.0.0_best_int/"
      +:+ lang +:+ ".traineddata.gz".
Proof.
  intros Hbrace Hpat. rewrite download_url_plain by done.
  unfold spec_url, substitute_all. cbn [source default_config].
  change "https://unpkg.com/@tesseract.js-data/{lang}/4.0.0_best_int/{file}"
    with ("https://unpkg.com/@tesseract.js-data/" +:+ "{lang}"
            +:+ "/4.0.0_best_int/{file}").
  rewrite (substitute_go_pass "lang}") by reflexivity.
  rewrite substitute_go_match.
  change (substitute_go "{lang}" lang "/4.0.0_best_int/{file}" 0)
    with ("/4.0.0_best_int/" +:+ "{file}" +:+ EmptyString).
  rewrite (substitute_go_pass "file}") by reflexivity.
  rewrite (substitute_go_pass "file}") by done.
  rewrite (substitute_go_pass "file}") by reflexivity.
  rewrite substitute_go_match. cbn [substitute_go].
  by rewrite string_app_empty_r.
Qed.

End DefaultUrl.


(** ** The promise of [installNecessaryLangs] *)

Section PromiseFacts.

Variable ctx : Context.
Variable config : Config.

Lemma missing_of_installed installedLangs langs :
  (∀ L, L ∈ langs → L ∈ installedLangs) → missing_of installedLangs langs = [].
Proof.
  unfold missing_of. induction langs as [|L langs IH]; intros H; [done|].
  rewrite filter_cons_False.
  - apply IH. intros L' HL'. apply H. by right.
  - intros Hneg. apply negb_True in Hneg. apply Hneg. unfold Js.includes.
    apply bool_decide_pack, H. by left.
Qed.

Lemma run_schedule_no_task sched rej w :
  run_schedule ctx config sched (mkPool [] rej) w = (mkPool [] rej, w).
Proof. induction sched as [|i sched IH]; [done|]. exact IH. Qed.

(** X13: when every code asked for is installed, [installNecessaryLangs]
    starts no install and issues no request under any schedule, and its
    promise is fulfilled; it has done what the listing does. *)
Theorem installNecessaryLangs_nothing_missing langs sched w installedLangs w0 :
  getInstalledLangs ctx config w = (Return installedLangs, w0) →
  (∀ L, L ∈ langs → L ∈ installedLangs) →
  installNecessaryLangs ctx config langs sched w
  = (mkPool [] None, Fulfilled tt, w0).
Proof.
  intros Hl Hall. rewrite (installNecessaryLangs_eq _ _ _ _ _ _ _ Hl).
  rewrite (missing_of_installed _ _ Hall). cbn [begin_all fst snd]. cbv zeta.
  by rewrite run_schedule_no_task.
Qed.

Lemma forallb_false_Exists {A} (f : A → bool) l :
  forallb f l = false → Exists (fun x => f x = false) l.
Proof.
  induction l as [|x l IH]; [done|]. simpl.
  destruct (f x) eqn:Hx; [|by left]. right. by apply IH.
Qed.

Lemma install_resume_settled t w :
  is_settled t = true → install_resume ctx config t w = (t, w).
Proof.
  unfold is_settled, install_resume.
  by destruct (task_stage t) as [[?|]| | | |].
Qed.

(** The stage a task that is not settled goes to. *)
Lemma install_resume_stage t w :
  is_settled t = false →
  match task_stage (install_resume ctx config t w).1 with
  | Settled c => c = Return tt ∨ ∃ e, c = Throw e
  | _ => True
  end.
Proof.
  unfold is_settled, install_resume.
  destruct (task_stage t) as [[resp|]|resp|resp| |c] eqn:Et; simpl;
    try done.
  - by eauto.
  - unfold fs_mkdir. destruct (mkdir_recursive _ _ _); simpl; eauto.
  - destruct (pipe_step_outcome ctx resp
                (gzipFilePath ctx config (task_lang t)) w)
      as (c & w' & -> & [->|[[e ->]|[-> _]]] & _); simpl; eauto.
  - by rewrite Et.
Qed.

Lemma begin_all_stage langs w :
  Forall (fun t => ∃ answer, task_stage t = AwaitGet answer)
    (begin_all ctx config langs w).1.
Proof.
  revert w. induction langs as [|lang langs IH]; intros w; [constructor|].
  cbn [begin_all]. rewrite install_begin_eq.
  specialize (IH (requested ctx config lang w)).
  destruct (begin_all ctx config langs _) as [ts w2].
  constructor; [by eexists|done].
Qed.

Lemma resume_in_pool_consistent i pl w :
  consistent pl → consistent (resume_in_pool ctx config i pl w).1.
Proof.
  unfold consistent, resume_in_pool. intros Hc.
  destruct (pool_tasks pl !! i) as [t|] eqn:Ei; [|done].
  destruct (is_settled t) eqn:Hs.
  - rewrite (install_resume_settled _ _ Hs). simpl.
    rewrite (list_insert_id _ _ _ Ei).
    by destruct (pool_rejection pl).
  - pose proof (install_resume_stage t w Hs) as Hstage.
    destruct (install_resume ctx config t w) as [t' w'] eqn:Er. simpl in *.
    destruct (pool_rejection pl) as [e|].
    + apply Exists_exists in Hc as (t0 & Hin & Ht0).
      apply list_elem_of_lookup in Hin as [j Hj].
      apply Exists_exists. exists t0. split; [|done].
      apply list_elem_of_lookup. exists j.
      rewrite list_lookup_insert_ne; [done|].
      intros <-. simplify_eq. unfold is_settled in Hs. by rewrite Ht0 in Hs.
    + destruct (task_stage t') as [?|?|?| |c] eqn:Et'.
      1-4: apply Forall_insert; [done|]; intros c; by rewrite Et'.
      destruct Hstage as [->|[e ->]].
      * apply Forall_insert; [done|]. intros c. rewrite Et'. by intros [= <-].
      * apply Exists_exists. exists t'. split; [|done].
        apply list_elem_of_lookup. exists i.
        apply list_lookup_insert_eq. by eapply lookup_lt_Some.
Qed.

Lemma run_schedule_consistent sched pl w :
  consistent pl → consistent (run_schedule ctx config sched pl w).1.
Proof.
  revert pl w. induction sched as [|i sched IH]; intros pl w Hc; [done|].
  simpl. pose proof (resume_in_pool_consistent i pl w Hc) as H.
  destruct (resume_in_pool ctx config i pl w) as [pl' w']. by apply IH.
Qed.

(** X14: under every schedule, the promise of [installNecessaryLangs] is
    fulfilled only when every install it started has returned, is rejected
    only with an error that one of these installs has thrown, and is pending
    only while one of them is not settled. *)
Theorem promise_reports_installs langs sched w :
  match (installNecessaryLangs ctx config langs sched w).1.2 with
  | Fulfilled _ =>
      Forall (fun t => task_stage t = Settled (Return tt))
        (pool_tasks (installNecessaryLangs ctx config langs sched w).1.1)
  | Rejected e =>
      Exists (fun t => task_stage t = Settled (Throw e))
        (pool_tasks (installNecessaryLangs ctx config langs sched w).1.1)
  | Pending =>
      Exists (fun t => is_settled t = false)
        (pool_tasks (installNecessaryLangs ctx config langs sched w).1.1)
  end.
Proof.
  destruct (getInstalledLangs_returns ctx config w) as (installedLangs & w0 & Hl).
  rewrite (installNecessaryLangs_eq _ _ _ _ _ _ _ Hl). cbv zeta. simpl.
  set (started := begin_all ctx config (missing_of installedLangs langs) w0).
  assert (consistent (mkPool started.1 None)) as Hc.
  { unfold consistent. simpl. eapply Forall_impl; [apply begin_all_stage|].
    intros t [answer Ht] c. by rewrite Ht. }
  apply (run_schedule_consistent sched _ started.2) in Hc.
  destruct (run_schedule ctx config sched _ _) as [pl w2]. simpl in *.
  unfold promise_all, consistent in *.
  destruct (pool_rejection pl) as [e|]; [done|].
  destruct (forallb is_settled (pool_tasks pl)) eqn:Hall.
  - apply Forall_forall. intros t Ht.
    pose proof (proj1 (forallb_forall _ _) Hall t
                  (proj1 (list_elem_of_In _ _) Ht)) as Hs.
    rewrite Forall_forall in Hc. specialize (Hc t Ht).
    unfold is_settled in Hs.
    destruct (task_stage t) as [?|?|?| |c]; try done. by rewrite (Hc c).
  - by apply forallb_false_Exists.
Qed.

End PromiseFacts.

(** ** Schedules that let every install finish *)

Section ScheduleFacts.

Variable ctx : Context.
Variable config : Config.

Lemma install_resume_remaining t w :
  remaining (install_resume ctx config t w).1 ≤ remaining t - 1.
Proof.
  unfold install_resume, remaining at 2.
  destruct (task_stage t) as [[resp|]|resp|resp| |c] eqn:Et.
  - unfold remaining. simpl. lia.
  - unfold remaining. simpl. lia.
  - unfold fs_mkdir. destruct (mkdir_recursive _ _ _);
      unfold remaining; simpl; lia.
  - destruct (pipe_step_outcome ctx resp
                (gzipFilePath ctx config (task_lang t)) w)
      as (c & w' & -> & [->|[[e ->]|[-> _]]] & _); unfold remaining; simpl; lia.
  - unfold remaining. simpl. rewrite Et. lia.
  - unfold remaining. simpl. rewrite Et. lia.
Qed.

Lemma resume_in_pool_remaining i pl w j :
  from_option remaining 0 (pool_tasks (resume_in_pool ctx config i pl w).1 !! j)
  ≤ from_option remaining 0 (pool_tasks pl !! j)
    - (if bool_decide (i = j) then 1 else 0).
Proof.
  unfold resume_in_pool.
  destruct (pool_tasks pl !! i) as [t|] eqn:Ei.
  - pose proof (install_resume_remaining t w) as Hr.
    destruct (install_resume ctx config t w) as [t' w']. simpl in *.
    case_bool_decide as Hij.
    + subst j. rewrite list_lookup_insert_eq by by eapply lookup_lt_Some.
      by rewrite Ei.
    + rewrite list_lookup_insert_ne by done. lia.
  - simpl. case_bool_decide as Hij; [|lia]. subst j. rewrite Ei. simpl. lia.
Qed.

Lemma run_schedule_remaining sched pl w j :
  from_option remaining 0 (pool_tasks (run_schedule ctx config sched pl w).1 !! j)
  ≤ from_option remaining 0 (pool_tasks pl !! j)
    - length (filter (fun i => i = j) sched).
Proof.
  revert pl w. induction sched as [|i sched IH]; intros pl w; [simpl; lia|].
  cbn [run_schedule].
  pose proof (resume_in_pool_remaining i pl w j) as Hstep.
  destruct (resume_in_pool ctx config i pl w) as [pl' w'].
  specialize (IH pl' w'). simpl in Hstep.
  rewrite filter_cons. destruct (decide (i = j)) as [->|Hne].
  - rewrite bool_decide_eq_true_2 in Hstep by done. simpl. lia.
  - rewrite bool_decide_eq_false_2 in Hstep by done. lia.
Qed.

Lemma remaining_0_finished t : remaining t = 0 → is_finished t = true.
Proof. unfold remaining, is_finished. by destruct (task_stage t). Qed.

Lemma remaining_le_3 t : remaining t ≤ 3.
Proof. unfold remaining. destruct (task_stage t); lia. Qed.

(** X15: under a schedule that resumes each of the installs started at
    least three times, every install is finished: it is settled, or it is
    suspended for ever (on a response stream that stalls); and when every
    install is settled the promise of [installNecessaryLangs] is settled
    too. *)
Theorem enough_resumptions_finish langs sched w installedLangs w0 :
  getInstalledLangs ctx config w = (Return installedLangs, w0) →
  (∀ j, j < length (missing_of installedLangs langs) →
        3 ≤ length (filter (fun i => i = j) sched)) →
  Forall (fun t => is_finished t = true)
    (pool_tasks (installNecessaryLangs ctx config langs sched w).1.1) ∧
  ((installNecessaryLangs ctx config langs sched w).1.2 = Pending →
   Exists (fun t => task_stage t = Hanging)
     (pool_tasks (installNecessaryLangs ctx config langs sched w).1.1)).
Proof.
  intros Hl Hsched. rewrite (installNecessaryLangs_eq _ _ _ _ _ _ _ Hl).
  cbv zeta. simpl.
  set (missing := missing_of installedLangs langs) in *.
  pose proof (begin_all_spec ctx config missing w0) as (Hb & _ & _).
  set (pl0 := mkPool (begin_all ctx config missing w0).1 None).
  pose proof (run_schedule_spec ctx config sched pl0
                (begin_all ctx config missing w0).2) as [Hlangs _].
  pose proof (fun j => run_schedule_remaining sched pl0
                (begin_all ctx config missing w0).2 j) as Hrem.
  destruct (run_schedule ctx config sched pl0 _) as [pl w2]. simpl in *.
  assert (length (pool_tasks pl) = length missing) as Hlen.
  { by rewrite <- Hb, <- Hlangs, !length_fmap. }
  assert (Forall (fun t => is_finished t = true) (pool_tasks pl)) as Hall.
  { apply Forall_lookup. intros j t Hj.
    apply remaining_0_finished. specialize (Hrem j). rewrite Hj in Hrem.
    assert (j < length missing) as Hlt.
    { rewrite <- Hlen. by eapply lookup_lt_Some. }
    specialize (Hsched j Hlt). simpl in Hrem.
    destruct ((begin_all ctx config missing w0).1 !! j) as [t0|];
      simpl in Hrem.
    - pose proof (remaining_le_3 t0). lia.
    - lia. }
  split; [done|]. unfold promise_all.
  destruct (pool_rejection pl); [done|].
  destruct (forallb is_settled (pool_tasks pl)) eqn:Hs; [done|]. intros _.
  apply forallb_false_Exists in Hs.
  apply Exists_exists in Hs as (t & Hin & Ht).
  apply Exists_exists. exists t. split; [done|].
  rewrite Forall_forall in Hall. specialize (Hall t Hin).
  unfold is_finished in Hall. unfold is_settled in Ht.
  by destruct (task_stage t).
Qed.

(** X16: one missing code, resumed three times: [installNecessaryLangs]
    leaves the world that [installLang] leaves when it is run after the
    listing, and its promise is settled as [installLang] completes. *)
Theorem single_install_is_installLang lang w installedLangs w0 :
  getInstalledLangs ctx config w = (Return installedLangs, w0) →
  lang ∉ installedLangs →
  (installNecessaryLangs ctx config [lang] [0; 0; 0] w).2
    = (installLang ctx config lang w0).2 ∧
  (installNecessaryLangs ctx config [lang] [0; 0; 0] w).1.2
    = match (installLang ctx config lang w0).1 with
      | Return _ => Fulfilled tt
      | Throw e => Rejected e
      | Never => Pending
      end.
Proof.
  intros Hl Hnot. rewrite (installNecessaryLangs_eq _ _ _ _ _ _ _ Hl).
  assert (missing_of installedLangs [lang] = [lang]) as ->.
  { unfold missing_of. rewrite filter_cons_True; [done|].
    apply negb_True. unfold Js.includes. by rewrite bool_decide_spec. }
  rewrite installLang_cases. cbn [begin_all]. rewrite install_begin_eq.
  cbv zeta. unfold run_schedule, resume_in_pool, install_resume, promise_all.
  unfold fs_mkdir. simpl.
  destruct (http_answer ctx _ _) as [resp|]; simpl; [|done].
  destruct (mkdir_recursive _ _ _) as [fs1|]; simpl; [|done].
  rewrite pipe_step_cases. simpl.
  destruct (ending resp).
  - by destruct (can_open _ _ _).
  - destruct (left_behind resp); [|done]. by destruct (can_open _ _ _).
  - by destruct (can_open _ _ _).
Qed.

End ScheduleFacts.

(** ** The commands *)

Section CommandFacts.

Variable ctx : Context.
Variable config : Config.

Local Abbreviation root := (service_langPath ctx config).
Local Abbreviation downloaded := "图片下载完成，开始识别……".
Local Abbreviation image_request src := (mkRequest src "stream" None).
Local Abbreviation engine_options :=
  ({[ "langPath" := VString (to_string root) ]} : JsObject).

(** X17: the list command never throws; when the listing fails or finds
    nothing it replies that no language is installed. *)
Theorem command_lang_list_never_throws w :
  (∃ reply w', command_lang_list ctx config w = (Return reply, w')) ∧
  ((getInstalledLangs ctx config w).1 = Return [] →
   (command_lang_list ctx config w).1 = Return "已安装的语言：无").
Proof.
  unfold command_lang_list, bind, ret.
  destruct (getInstalledLangs_returns ctx config w) as (langs & w' & ->).
  split; [by eauto|]. simpl. by intros [= ->].
Qed.

(** The install command, by the outcome of [installLang]. *)
Lemma command_lang_install_cases lang w :
  command_lang_install ctx config lang w =
  match installLang ctx config lang w with
  | (Throw err, w1) =>
      (Throw (SessionError
                ("安装 " +:+ lang +:+ " 的训练数据时出错：" +:+ error_text ctx err)),
       add_log (mkLog Error ("安装 " +:+ lang +:+ " 的训练数据时出错: %o") (Some err))
         w1)
  | (Return _, w1) =>
      (let* langs := getInstalledLangs ctx config in
       ret ("安装 " +:+ lang +:+ " 的训练数据成功，当前已安装的语言："
              +:+ Js.join ", " langs))%async w1
  | (Never, w1) => (Never, w1)
  end.
Proof.
  unfold command_lang_install, try_catch, logger, throw.
  unfold bind at 1.
  destruct (installLang ctx config lang w) as [[[]|err|] w1]; done.
Qed.

(** X18: the install command throws nothing but session errors; when
    [installLang] throws, the command logs the error, throws the session
    error made of its text, and does not list the languages. *)
Theorem command_lang_install_wraps_errors lang w :
  (∀ e, (command_lang_install ctx config lang w).1 = Throw e →
        ∃ msg, e = SessionError msg) ∧
  (∀ err, (installLang ctx config lang w).1 = Throw err →
     command_lang_install ctx config lang w
     = (Throw (SessionError
                 ("安装 " +:+ lang +:+ " 的训练数据时出错：" +:+ error_text ctx err)),
        add_log (mkLog Error ("安装 " +:+ lang +:+ " 的训练数据时出错: %o") (Some err))
          (installLang ctx config lang w).2)).
Proof.
  rewrite command_lang_install_cases.
  destruct (installLang ctx config lang w) as [[[]|err|] w1]; simpl.
  - unfold bind, ret.
    destruct (getInstalledLangs_returns ctx config w1) as (langs & w2 & ->).
    split; [done|]. by intros err.
  - split; [intros e [= <-]; by eauto|]. by intros ? [= <-].
  - split; [done|]. by intros err.
Qed.

Lemma find_no_img elements :
  Forall (fun el => el_type el ≠ "img") elements →
  List.find (fun el => String.eqb (el_type el) "img") elements = None.
Proof.
  induction 1 as [|el elements Hel _ IH]; [done|]. simpl.
  by rewrite (proj2 (String.eqb_neq _ _) Hel).
Qed.

(** X19: on a message without an image element the recognize command
    replies with its request for an image and does nothing else: no
    request, no listing, no worker. *)
Theorem recognize_without_image elements opt_langs opt_json w :
  Forall (fun el => el_type el ≠ "img") elements →
  command_recognize ctx config elements opt_langs opt_json w
  = (Return "请在命令中附带图片", w).
Proof.
  intros H. unfold command_recognize. by rewrite (find_no_img _ H).
Qed.

(** The recognize command from the request for a worker on. *)
Local Abbreviation recognition langs buffer opt_json :=
  (let* worker := Tesseract_createWorker ctx langs 1 (∅ ∪ engine_options) in
   let* text := worker_recognize ctx worker buffer in
   worker_terminate worker ;;
   (if opt_json then logger Info "识别结果 JSON: %o" None else ret tt) ;;
   ret ("识别结果：" +:+ text))%async.

(** The recognize command once it has found its image. *)
Lemma command_recognize_image elements imgEl opt_langs opt_json w :
  List.find (fun el => String.eqb (el_type el) "img") elements = Some imgEl →
  command_recognize ctx config elements opt_langs opt_json w =
  match http_answer ctx (length (requests w)) (image_request (el_src imgEl)) with
  | None =>
      (Throw (HttpError (el_src imgEl)),
       add_request (image_request (el_src imgEl)) w)
  | Some stream =>
      match ending stream with
      | Closes =>
          (let* langs := recognize_langs ctx config opt_langs in
           let* worker := createWorker ctx config langs None in
           let* text :=
             worker_recognize ctx worker (Buffer_concat (chunks stream)) in
           worker_terminate worker ;;
           (if opt_json then logger Info "识别结果 JSON: %o" None else ret tt) ;;
           ret ("识别结果：" +:+ text))%async
            (add_sent downloaded (add_request (image_request (el_src imgEl)) w))
      | Fails =>
          (Throw StreamError, add_request (image_request (el_src imgEl)) w)
      | Stalls => (Never, add_request (image_request (el_src imgEl)) w)
      end
  end.
Proof.
  intros Hfind. unfold command_recognize. rewrite Hfind.
  unfold bind at 1. unfold http_get, http_request.
  destruct (http_answer ctx _ _) as [stream|]; [|done].
  unfold bind at 1. unfold streamToBuffer.
  destruct (ending stream); [|done..].
  unfold ret at 1. unfold bind at 1. by unfold session_send.
Qed.

(** X20: when the image cannot be downloaded the recognize command throws
    the error of the download, and has sent no message, listed nothing and
    asked for no worker. *)
Theorem recognize_download_fails elements imgEl opt_langs opt_json w :
  List.find (fun el => String.eqb (el_type el) "img") elements = Some imgEl →
  match http_answer ctx (length (requests w)) (image_request (el_src imgEl)) with
  | Some stream => ending stream = Fails
  | None => True
  end →
  (∃ e, (command_recognize ctx config elements opt_langs opt_json w).1 = Throw e ∧
        (e = HttpError (el_src imgEl) ∨ e = StreamError)) ∧
  (command_recognize ctx config elements opt_langs opt_json w).2
    = add_request (image_request (el_src imgEl)) w.
Proof.
  intros Hfind Hfail. rewrite (command_recognize_image _ _ _ _ _ Hfind).
  destruct (http_answer ctx _ _) as [stream|]; [|by eauto].
  rewrite Hfail. by eauto.
Qed.

(** The recognize command with the option [-l], once the image is
    downloaded: the listing and what [createWorker] makes of it. *)
Lemma command_recognize_with_langs elements imgEl l opt_json stream w
    installedLangs :
  List.find (fun el => String.eqb (el_type el) "img") elements = Some imgEl →
  http_answer ctx (length (requests w)) (image_request (el_src imgEl))
    = Some stream →
  closes stream = true →
  Js.truthy_string l = true →
  (getInstalledLangs ctx config w).1 = Return installedLangs →
  ∃ w3,
    asked w3 = asked w ∧ workers w3 = workers w ∧
    terminated w3 = terminated w ∧ sent w3 = sent w ++ [downloaded] ∧
    command_recognize ctx config elements (Some l) opt_json w =
    match missing_of installedLangs (Js.split "," l) with
    | [] =>
        recognition (Js.split "," l) (Buffer_concat (chunks stream)) opt_json w3
    | missing =>
        (Throw (SessionError
                  ("缺失 Tesseract.js 语言训练数据：" +:+ Js.join ", " missing)),
         w3)
    end.
Proof.
  intros Hfind Hans Hcl Hl Hlist. apply closes_true in Hcl.
  rewrite (command_recognize_image _ _ _ _ _ Hfind), Hans, Hcl.
  unfold bind at 1. unfold recognize_langs. rewrite Hl. unfold ret at 1.
  set (w2 := add_sent _ (add_request _ w)).
  destruct (getInstalledLangs_same_fs ctx config w2 w eq_refl eq_refl)
    as [Hres _].
  rewrite Hlist in Hres.
  destruct (getInstalledLangs ctx config w2) as [r w3] eqn:E3.
  simpl in Hres. subst r.
  destruct (getInstalledLangs_frame ctx config _ _ _ E3)
    as (_ & _ & Ha3 & Hw3 & Ht3 & Hs3 & _).
  exists w3. split; [done|]. split; [done|]. split; [done|]. split; [done|].
  unfold bind at 1. rewrite (createWorker_cases _ _ _ _ _ _ _ E3).
  by destruct (missing_of installedLangs (Js.split "," l)).
Qed.

(** X21: the recognize command with the option [-l], an image that is
    downloaded, languages that are all installed, an engine that builds the
    worker it is asked for and recognizes: the reply is the recognized text,
    the engine has been asked for one worker and has built it, for the
    languages of the option, with OEM 1 and the asset root as language-data
    path, and that worker is terminated. *)
Theorem recognize_success elements imgEl l opt_json stream w installedLangs
    text :
  let k := mkWorker (length (workers w)) (Js.split "," l) 1
             (∅ ∪ engine_options) in
  List.find (fun el => String.eqb (el_type el) "img") elements = Some imgEl →
  http_answer ctx (length (requests w)) (image_request (el_src imgEl))
    = Some stream →
  closes stream = true →
  Js.truthy_string l = true →
  (getInstalledLangs ctx config w).1 = Return installedLangs →
  (∀ L, L ∈ Js.split "," l → L ∈ installedLangs) →
  (∀ w1, engine_create ctx w1 k = Builds) →
  engine_recognize ctx k (Buffer_concat (chunks stream)) = Some text →
  (command_recognize ctx config elements (Some l) opt_json w).1
    = Return ("识别结果：" +:+ text) ∧
  asked (command_recognize ctx config elements (Some l) opt_json w).2
    = asked w ++ [k] ∧
  workers (command_recognize ctx config elements (Some l) opt_json w).2
    = workers w ++ [k] ∧
  terminated (command_recognize ctx config elements (Some l) opt_json w).2
    = terminated w ++ [length (workers w)] ∧
  w_options k !! "langPath" = Some (VString (to_string root)).
Proof.
  intros k Hfind Hans Hcl Hl Hlist Hall Hbuild Heng.
  destruct (command_recognize_with_langs elements imgEl l opt_json stream w
              installedLangs Hfind Hans Hcl Hl Hlist)
    as (w3 & Ha & Hw & Ht & _ & ->).
  rewrite (missing_of_installed _ _ Hall), recognition_cases. cbv zeta.
  rewrite Hw. fold k. rewrite Hbuild, Heng.
  destruct opt_json; simpl; rewrite Ha, Hw, Ht; done.
Qed.

(** X22: in the same situation with an engine that fails to recognize, the
    command throws the engine's error and the worker that was built is left
    without being terminated. *)
Theorem recognize_failure_leaves_worker elements imgEl l opt_json stream w
    installedLangs :
  let k := mkWorker (length (workers w)) (Js.split "," l) 1
             (∅ ∪ engine_options) in
  List.find (fun el => String.eqb (el_type el) "img") elements = Some imgEl →
  http_answer ctx (length (requests w)) (image_request (el_src imgEl))
    = Some stream →
  closes stream = true →
  Js.truthy_string l = true →
  (getInstalledLangs ctx config w).1 = Return installedLangs →
  (∀ L, L ∈ Js.split "," l → L ∈ installedLangs) →
  (∀ w1, engine_create ctx w1 k = Builds) →
  engine_recognize ctx k (Buffer_concat (chunks stream)) = None →
  (command_recognize ctx config elements (Some l) opt_json w).1
    = Throw EngineError ∧
  workers (command_recognize ctx config elements (Some l) opt_json w).2
    = workers w ++ [k] ∧
  terminated (command_recognize ctx config elements (Some l) opt_json w).2
    = terminated w.
Proof.
  intros k Hfind Hans Hcl Hl Hlist Hall Hbuild Heng.
  destruct (command_recognize_with_langs elements imgEl l opt_json stream w
              installedLangs Hfind Hans Hcl Hl Hlist)
    as (w3 & Ha & Hw & Ht & _ & ->).
  rewrite (missing_of_installed _ _ Hall), recognition_cases. cbv zeta.
  rewrite Hw. fold k. rewrite Hbuild, Heng. simpl. by rewrite Hw, Ht.
Qed.

(** X23: the recognize command with an option [-l] that names a language
    that is not installed throws the missing-assets error naming the missing
    languages, after it has downloaded the image and sent its progress
    message; the engine is not asked for a worker. *)
Theorem recognize_missing_language elements imgEl l opt_json stream w
    installedLangs m ms :
  List.find (fun el => String.eqb (el_type el) "img") elements = Some imgEl →
  http_answer ctx (length (requests w)) (image_request (el_src imgEl))
    = Some stream →
  closes stream = true →
  Js.truthy_string l = true →
  (getInstalledLangs ctx config w).1 = Return installedLangs →
  missing_of installedLangs (Js.split "," l) = m :: ms →
  (command_recognize ctx config elements (Some l) opt_json w).1
    = Throw (SessionError
               ("缺失 Tesseract.js 语言训练数据：" +:+ Js.join ", " (m :: ms))) ∧
  asked (command_recognize ctx config elements (Some l) opt_json w).2
    = asked w ∧
  workers (command_recognize ctx config elements (Some l) opt_json w).2
    = workers w ∧
  sent (command_recognize ctx config elements (Some l) opt_json w).2
    = sent w ++ [downloaded].
Proof.
  intros Hfind Hans Hcl Hl Hlist Hmiss.
  destruct (command_recognize_with_langs elements imgEl l opt_json stream w
              installedLangs Hfind Hans Hcl Hl Hlist)
    as (w3 & Ha & Hw & _ & Hs & ->).
  rewrite Hmiss. simpl. by rewrite Ha, Hw, Hs.
Qed.


End CommandFacts.

(** ** The further properties on the sample hosts *)

Lemma installLang_requests_url_witness :
  Js.has_pattern "eng" = false ∧
  requests (installLang sample_ctx default_config "eng" empty_world).2 =
    [mkRequest
       "https://unpkg.com/@tesseract.js-data/eng/4.0.0_best_int/eng.traineddata.gz"
       "stream" (Some 30000%N)].
Proof.
  split; [reflexivity|].
  exact (installLang_requests_url sample_ctx default_config "eng" empty_world
           eq_refl).
Defined.


Lemma getInstalledLangs_twice_witness :
  is_Some (mkdir_recursive (faults eng_world)
             (on_disk sample_ctx (service_langPath sample_ctx default_config))
             (fs eng_world)) ∧
  is_dir (fs (getInstalledLangs sample_ctx default_config eng_world).2)
    (on_disk sample_ctx (service_langPath sample_ctx default_config)) = true.
Proof.
  assert (is_Some (mkdir_recursive (faults eng_world)
             (on_disk sample_ctx (service_langPath sample_ctx default_config))
             (fs eng_world)))
    as H by (exists (fs eng_world); reflexivity).
  split; [exact H|].
  exact (proj2 (proj2 (getInstalledLangs_twice sample_ctx default_config
                         eng_world)) H).
Defined.

Lemma plain_codes_and_their_files_witness :
  Js.contains "/" "eng" = false ∧ Js.contains "/" "fra" = false ∧
  gzipFilePath sample_ctx default_config "eng"
    = ("eng" +:+ ".traineddata.gz")
      :: service_langPath sample_ctx default_config.
Proof.
  split; [reflexivity|]. split; [reflexivity|].
  exact (proj1 (plain_codes_and_their_files sample_ctx default_config
                  "eng" "fra" eq_refl eq_refl)).
Defined.

Lemma langPath_round_trip_witness :
  resolved (cwd sample_ctx) ∧
  resolve [] [to_string (service_langPath sample_ctx default_config)]
    = service_langPath sample_ctx default_config.
Proof.
  assert (resolved (cwd sample_ctx)) as H by (repeat constructor).
  split; [exact H|].
  exact (proj2 (langPath_round_trip sample_ctx default_config [] H)).
Defined.

Lemma langPath_absolute_witness :
  Js.startsWith (langPath (mkConfig "/srv/tesseract" "{file}" 1%N)) "/" = true ∧
  service_langPath sample_ctx (mkConfig "/srv/tesseract" "{file}" 1%N)
    = service_langPath
        (mkContext "elsewhere" [] utf8_of_string string_of_utf8
           (fun _ _ => None) (fun _ _ => Rejects) (fun _ _ => None)
           (fun _ => EmptyString))
        (mkConfig "/srv/tesseract" "{file}" 1%N).
Proof.
  split; [reflexivity|].
  apply (proj1 (langPath_absolute sample_ctx _ _)). reflexivity.
Defined.

Lemma partial_download_is_listed_witness :
  Js.contains "/" "fra" = false ∧
  ending (mkStream [body_A] Fails (Some body_A)) = Fails ∧
  (installLang flaky_ctx default_config "fra" eng_world).1 = Throw StreamError ∧
  ∃ langs,
    (getInstalledLangs flaky_ctx default_config
       (installLang flaky_ctx default_config "fra" eng_world).2).1
      = Return langs ∧
    "fra" ∈ langs.
Proof.
  split; [reflexivity|]. split; [reflexivity|].
  assert (on_disk flaky_ctx (service_langPath flaky_ctx default_config)
          ∉ readdir_denied (faults eng_world)) as Hrd
    by apply not_elem_of_empty.
  destruct (partial_download_is_listed flaky_ctx default_config "fra"
              eng_world (mkStream [body_A] Fails (Some body_A)) body_A
              (fs eng_world)
              eq_refl eq_refl eq_refl eq_refl eq_refl eq_refl eq_refl Hrd)
    as (Hthrow & _ & Hlisted).
  split; [exact Hthrow|exact Hlisted].
Defined.

Lemma installLang_accounting_witness :
  (installLang stalling_ctx default_config "eng" empty_world).1 = Never ∧
  ∃ resp,
    http_answer stalling_ctx (length (requests empty_world))
      (download_request default_config "eng") = Some resp ∧
    ending resp = Stalls.
Proof.
  split; [reflexivity|].
  exact (proj2 (proj2 (installLang_accounting stalling_ctx default_config "eng"
                         empty_world)) eq_refl).
Defined.


Lemma ascii_code_is_listed_witness :
  ascii_only "chi_sim" = true ∧ Js.contains "/" "chi_sim" = false ∧
  (installLang sample_ctx default_config "chi_sim" eng_world).1 = Return tt ∧
  ∃ langs,
    (getInstalledLangs sample_ctx default_config
       (installLang sample_ctx default_config "chi_sim" eng_world).2).1
      = Return langs ∧
    "chi_sim" ∈ langs.
Proof.
  split; [reflexivity|]. split; [reflexivity|]. split; [reflexivity|].
  refine (proj2 (ascii_code_is_listed sample_ctx default_config "chi_sim"
                   eng_world eq_refl eq_refl eq_refl eq_refl eq_refl _)).
  apply not_elem_of_empty.
Defined.

Lemma default_download_url_witness :
  Js.contains "{" "chi_sim" = false ∧ Js.has_pattern "chi_sim" = false ∧
  download_url default_config "chi_sim"
  = "https://unpkg.com/@tesseract.js-data/chi_sim/4.0.0_best_int/chi_sim.traineddata.gz".
Proof.
  split; [reflexivity|]. split; [reflexivity|].
  exact (default_download_url "chi_sim" eq_refl eq_refl).
Defined.

(** The codes of a list of [eng] alone are installed where [eng] is. *)
Lemma only_eng (langs : list string) :
  Forall (fun L => L = "eng") langs → ∀ L, L ∈ langs → L ∈ ["eng"].
Proof.
  intros Hall L HL. rewrite Forall_forall in Hall. rewrite (Hall L HL).
  apply list_elem_of_here.
Qed.

Lemma installNecessaryLangs_nothing_missing_witness :
  getInstalledLangs sample_ctx default_config eng_world
    = (Return ["eng"], eng_world) ∧
  (∀ L, L ∈ ["eng"; "eng"] → L ∈ ["eng"]) ∧
  installNecessaryLangs sample_ctx default_config ["eng"; "eng"] [0; 1; 0]
    eng_world
  = (mkPool [] None, Fulfilled tt, eng_world).
Proof.
  assert (∀ L, L ∈ ["eng"; "eng"] → L ∈ ["eng"]) as Hall
    by (apply only_eng; repeat constructor).
  split; [reflexivity|]. split; [exact Hall|].
  exact (installNecessaryLangs_nothing_missing sample_ctx default_config
           ["eng"; "eng"] [0; 1; 0] eng_world ["eng"] eng_world eq_refl Hall).
Defined.

Lemma enough_resumptions_finish_witness :
  getInstalledLangs sample_ctx default_config eng_world
    = (Return ["eng"], eng_world) ∧
  Forall (fun t => is_finished t = true)
    (pool_tasks (installNecessaryLangs sample_ctx default_config
                   ["fra"; "deu"] [0; 1; 1; 0; 0; 1] eng_world).1.1).
Proof.
  split; [reflexivity|].
  apply (enough_resumptions_finish sample_ctx default_config ["fra"; "deu"]
           [0; 1; 1; 0; 0; 1] eng_world ["eng"] eng_world eq_refl).
  intros j Hj. change (j < 2) in Hj.
  destruct j as [|[|j]]; [vm_compute; lia|vm_compute; lia|lia].
Defined.

Lemma single_install_is_installLang_witness :
  getInstalledLangs sample_ctx default_config eng_world
    = (Return ["eng"], eng_world) ∧
  ("fra" ∉ ["eng"]) ∧
  (installNecessaryLangs sample_ctx default_config ["fra"] [0; 0; 0]
     eng_world).2
  = (installLang sample_ctx default_config "fra" eng_world).2.
Proof.
  assert ("fra" ∉ ["eng"]) as Hnot.
  { intros H. apply elem_of_cons in H as [H|H]; [discriminate|].
    apply elem_of_nil in H. destruct H. }
  split; [reflexivity|]. split; [exact Hnot|].
  exact (proj1 (single_install_is_installLang sample_ctx default_config "fra"
                  eng_world ["eng"] eng_world eq_refl Hnot)).
Defined.

Lemma command_lang_list_never_throws_witness :
  (getInstalledLangs sample_ctx default_config unlistable_world).1 = Return [] ∧
  (command_lang_list sample_ctx default_config unlistable_world).1
    = Return "已安装的语言：无".
Proof.
  split; [reflexivity|].
  exact (proj2 (command_lang_list_never_throws sample_ctx default_config
                  unlistable_world) eq_refl).
Defined.

Lemma command_lang_install_wraps_errors_witness :
  (installLang offline_ctx default_config "eng" empty_world).1
    = Throw (HttpError (download_url default_config "eng")) ∧
  command_lang_install offline_ctx default_config "eng" empty_world
    = (Throw (SessionError
                ("安装 " +:+ "eng" +:+ " 的训练数据时出错：" +:+
                 error_text offline_ctx
                   (HttpError (download_url default_config "eng")))),
       add_log (mkLog Error ("安装 " +:+ "eng" +:+ " 的训练数据时出错: %o")
                  (Some (HttpError (download_url default_config "eng"))))
         (installLang offline_ctx default_config "eng" empty_world).2).
Proof.
  split; [reflexivity|].
  exact (proj2 (command_lang_install_wraps_errors offline_ctx default_config
                  "eng" empty_world) _ eq_refl).
Defined.

Lemma recognize_without_image_witness :
  Forall (fun el => el_type el ≠ "img") [mkElement "text" "hello"] ∧
  command_recognize sample_ctx default_config [mkElement "text" "hello"]
    (Some "eng") true eng_world
  = (Return "请在命令中附带图片", eng_world).
Proof.
  assert (Forall (fun el => el_type el ≠ "img") [mkElement "text" "hello"])
    as H by (repeat constructor; discriminate).
  split; [exact H|].
  exact (recognize_without_image sample_ctx default_config _ (Some "eng") true
           eng_world H).
Defined.

Lemma recognize_download_fails_witness :
  List.find (fun el => String.eqb (el_type el) "img")
    [mkElement "img" "http://x/i.png"]
    = Some (mkElement "img" "http://x/i.png") ∧
  (command_recognize offline_ctx default_config
     [mkElement "img" "http://x/i.png"] None false eng_world).2
  = add_request (mkRequest "http://x/i.png" "stream" None) eng_world.
Proof.
  split; [reflexivity|].
  exact (proj2 (recognize_download_fails offline_ctx default_config
                  [mkElement "img" "http://x/i.png"]
                  (mkElement "img" "http://x/i.png") None false eng_world
                  eq_refl I)).
Defined.

(** The pieces of the option [-l eng] are installed where [eng] is. *)
Lemma eng_pieces_installed : ∀ L, L ∈ Js.split "," "eng" → L ∈ ["eng"].
Proof. intros L HL. exact HL. Qed.

Lemma recognize_success_witness :
  Js.truthy_string "eng" = true ∧
  (getInstalledLangs sample_ctx default_config eng_world).1 = Return ["eng"] ∧
  (command_recognize sample_ctx default_config
     [mkElement "img" "http://x/i.png"] (Some "eng") false eng_world).1
  = Return ("识别结果：" +:+ "text") ∧
  terminated (command_recognize sample_ctx default_config
                [mkElement "img" "http://x/i.png"] (Some "eng") false
                eng_world).2 = [0].
Proof.
  split; [reflexivity|]. split; [reflexivity|].
  destruct (recognize_success sample_ctx default_config
              [mkElement "img" "http://x/i.png"]
              (mkElement "img" "http://x/i.png") "eng" false
              (mkStream [body_A] Closes None) eng_world ["eng"] "text"
              eq_refl eq_refl eq_refl eq_refl eq_refl
              eng_pieces_installed (fun _ => eq_refl) eq_refl)
    as (Hr & _ & _ & Ht & _).
  split; [exact Hr|exact Ht].
Defined.

Lemma recognize_failure_leaves_worker_witness :
  Js.truthy_string "eng" = true ∧
  (command_recognize blind_ctx default_config
     [mkElement "img" "http://x/i.png"] (Some "eng") false eng_world).1
  = Throw EngineError ∧
  terminated (command_recognize blind_ctx default_config
                [mkElement "img" "http://x/i.png"] (Some "eng") false
                eng_world).2 = [].
Proof.
  split; [reflexivity|].
  destruct (recognize_failure_leaves_worker blind_ctx default_config
              [mkElement "img" "http://x/i.png"]
              (mkElement "img" "http://x/i.png") "eng" false
              (mkStream [body_A] Closes None) eng_world ["eng"]
              eq_refl eq_refl eq_refl eq_refl eq_refl
              eng_pieces_installed (fun _ => eq_refl) eq_refl)
    as (Hr & _ & Ht).
  split; [exact Hr|exact Ht].
Defined.

Lemma recognize_missing_language_witness :
  (getInstalledLangs sample_ctx default_config eng_world).1 = Return ["eng"] ∧
  missing_of ["eng"] (Js.split "," "eng,fra,deu") = ["fra"; "deu"] ∧
  (command_recognize sample_ctx default_config
     [mkElement "img" "http://x/i.png"] (Some "eng,fra,deu") false eng_world).1
  = Throw (SessionError ("缺失 Tesseract.js 语言训练数据：" +:+ "fra, deu")).
Proof.
  split; [reflexivity|]. split; [reflexivity|].
  exact (proj1 (recognize_missing_language sample_ctx default_config
                  [mkElement "img" "http://x/i.png"]
                  (mkElement "img" "http://x/i.png") "eng,fra,deu" false
                  (mkStream [body_A] Closes None) eng_world ["eng"] "fra" ["deu"]
                  eq_refl eq_refl eq_refl eq_refl eq_refl eq_refl)).
Defined.
